(** * zmalloc: the memory-accounting allocator wrapper of src/zmalloc.c

    A shallow embedding of the allocation API of [zmalloc.c] (the try and
    the panicking forms of malloc, calloc, realloc and free, the usable
    size queries, the per-thread accounting and the aggregate query).

    - [size_t] and [int] values are integers in [Z]; every arithmetic
      operation of the source on them has its wrap-around written out
      ([wrap] for [size_t], [wrap_int] for [int]).
    - Pointers are addresses in [Z]; [NULL] is [0].
    - The conditional compilation of the source ([HAVE_MALLOC_SIZE],
      [USE_JEMALLOC], the width of [size_t]) is a [Config]; each [#ifdef] of
      the source is an [if] on it.
    - The underlying allocator (libc, jemalloc or tcmalloc) is an
      [Allocator]: a state machine over an abstract heap.
    - The code runs in a small state monad [M] over [zstate], whose results
      are [Done] (the call returned), [Abort] (the process was terminated
      by [abort()] or a failed [assert]) and [Fault] (the call left the
      defined behaviour of C: a load from memory nobody wrote, an index
      outside the table).
    - [trace] is the chronological log of what a call did to the outside:
      the calls of the underlying allocator and of the out-of-memory
      handler, and the accounting updates. *)

From Stdlib Require Import ZArith Lia.
From stdpp Require Import base numbers list gmap.

Local Open Scope Z_scope.

(** ** Build configuration *)

Class Config := {
  HAVE_MALLOC_SIZE : bool;   (* the allocator reports usable sizes *)
  USE_JEMALLOC : bool;
  size_t_bits : Z;           (* width of size_t, in bits *)
  sizeof_long : Z;
  IO_THREADS_MAX_NUM : Z     (* config.h, not part of zmalloc.c *)
}.

Definition NULL : Z := 0.
Definition INT_MAX : Z := 2147483647.

(* atomic_int arithmetic wraps in two's complement *)
Definition wrap_int (x : Z) : Z := (x + 2 ^ 31) mod 2 ^ 32 - 2 ^ 31.

Section Constants.
Context {cfg : Config}.

Definition SIZE_MAX : Z := 2 ^ size_t_bits - 1.

(* unsigned arithmetic on size_t *)
Definition wrap (x : Z) : Z := x mod 2 ^ size_t_bits.

Definition sizeof_size_t : Z := size_t_bits / 8.

(* #ifdef HAVE_MALLOC_SIZE
   #define PREFIX_SIZE (0)
   #else
   #if SIZE_MAX < 0xffffffffffffffffull
   #define PREFIX_SIZE 8
   #else
   #define PREFIX_SIZE (sizeof(size_t)) *)
Definition PREFIX_SIZE : Z :=
  if HAVE_MALLOC_SIZE then 0
  else if SIZE_MAX <? 18446744073709551615 then 8
  else sizeof_size_t.

(* #define MALLOC_MIN_SIZE(x) ((x) > 0 ? (x) : sizeof(long)) *)
Definition MALLOC_MIN_SIZE (x : Z) : Z :=
  if x >? 0 then x else sizeof_long.

(* #define MAX_THREADS_NUM (IO_THREADS_MAX_NUM + 3 + 1) *)
Definition MAX_THREADS_NUM : Z := IO_THREADS_MAX_NUM + 3 + 1.

(* The configurations the source can be built for. *)
Record wf_config : Prop := {
  wf_bits : 16 <= size_t_bits;
  wf_bits8 : size_t_bits mod 8 = 0;
  wf_long : 0 < sizeof_long <= 8;
  wf_threads : 0 <= IO_THREADS_MAX_NUM < INT_MAX - 4
}.
End Constants.

(** ** The out-of-memory handler

    A handler is a C function [void (size_t)]. What the wrapper can observe
    of it is that it was called, with which argument, and whether it gave
    control back. [zmalloc_default_oom] prints and calls [abort()]. *)

Inductive oom_handler :=
| zmalloc_default_oom
| custom_oom (id : nat) (returns : Z -> bool).

Definition handler_returns (h : oom_handler) (size : Z) : bool :=
  match h with
  | zmalloc_default_oom => false
  | custom_oom _ returns => returns size
  end.

(** ** Observable events *)

Inductive event :=
| Call_malloc (size : Z)
| Call_calloc (count size : Z)
| Call_realloc (ptr size : Z)
| Call_free (ptr : Z)
| Call_sdallocx (ptr size : Z)
| Call_oom (h : oom_handler) (size : Z)
| Stat_alloc (size : Z)
| Stat_free (size : Z).

(** ** The underlying allocator

    [sys_malloc], [sys_calloc] and [sys_realloc] return the pointer ([NULL]
    on failure) and the allocator's next state. [sys_malloc_size] is the
    allocator's usable-size query, which zmalloc.h binds [zmalloc_size] to
    on [HAVE_MALLOC_SIZE] builds. [allocator_laws] are the guarantees of
    the C library the properties below rely on: addresses are not negative,
    a block is at least as large as requested, and a failed [realloc]
    leaves the heap as it was. *)

Class Allocator (Heap : Type) := {
  sys_malloc : Z -> Heap -> Z * Heap;
  sys_calloc : Z -> Z -> Heap -> Z * Heap;
  sys_realloc : Z -> Z -> Heap -> Z * Heap;
  sys_free : Z -> Heap -> Heap;
  sys_sdallocx : Z -> Z -> Heap -> Heap;
  sys_malloc_size : Z -> Heap -> Z
}.

Record allocator_laws {Heap : Type} (alloc : Allocator Heap) : Prop := {
  sys_malloc_nonneg : forall n h, 0 <= (sys_malloc n h).1;
  sys_malloc_size_ge : forall n h,
    (sys_malloc n h).1 <> NULL ->
    n <= sys_malloc_size (sys_malloc n h).1 (sys_malloc n h).2;
  sys_realloc_fail : forall p n h,
    0 < n -> (sys_realloc p n h).1 = NULL -> (sys_realloc p n h).2 = h
}.

(** ** Program state *)

Section State.
Context {Heap : Type}.

Record zstate := {
  (* static thread_local int thread_index = -1;  (of the calling thread) *)
  thread_index : Z;
  (* static size_t *used_memory_thread: MAX_THREADS_NUM slots *)
  used_memory_thread : list Z;
  (* static atomic_int total_active_threads = 0; *)
  total_active_threads : Z;
  (* static atomic_size_t used_memory_for_additional_threads = 0; *)
  used_memory_for_additional_threads : Z;
  (* static void ( *zmalloc_oom_handler)(size_t) = zmalloc_default_oom; *)
  zmalloc_oom_handler : oom_handler;
  (* state of the underlying allocator *)
  heap : Heap;
  (* the size_t word stored at the start of each block (the size header) *)
  mem : gmap Z Z;
  trace : list event
}.

Definition set_thread_index (v : Z) (st : zstate) : zstate :=
  {| thread_index := v;
     used_memory_thread := used_memory_thread st;
     total_active_threads := total_active_threads st;
     used_memory_for_additional_threads := used_memory_for_additional_threads st;
     zmalloc_oom_handler := zmalloc_oom_handler st;
     heap := heap st; mem := mem st; trace := trace st |}.

Definition set_used_memory_thread (v : list Z) (st : zstate) : zstate :=
  {| thread_index := thread_index st;
     used_memory_thread := v;
     total_active_threads := total_active_threads st;
     used_memory_for_additional_threads := used_memory_for_additional_threads st;
     zmalloc_oom_handler := zmalloc_oom_handler st;
     heap := heap st; mem := mem st; trace := trace st |}.

Definition set_total_active_threads (v : Z) (st : zstate) : zstate :=
  {| thread_index := thread_index st;
     used_memory_thread := used_memory_thread st;
     total_active_threads := v;
     used_memory_for_additional_threads := used_memory_for_additional_threads st;
     zmalloc_oom_handler := zmalloc_oom_handler st;
     heap := heap st; mem := mem st; trace := trace st |}.

Definition set_used_memory_for_additional_threads (v : Z) (st : zstate) : zstate :=
  {| thread_index := thread_index st;
     used_memory_thread := used_memory_thread st;
     total_active_threads := total_active_threads st;
     used_memory_for_additional_threads := v;
     zmalloc_oom_handler := zmalloc_oom_handler st;
     heap := heap st; mem := mem st; trace := trace st |}.

Definition set_oom_handler (v : oom_handler) (st : zstate) : zstate :=
  {| thread_index := thread_index st;
     used_memory_thread := used_memory_thread st;
     total_active_threads := total_active_threads st;
     used_memory_for_additional_threads := used_memory_for_additional_threads st;
     zmalloc_oom_handler := v;
     heap := heap st; mem := mem st; trace := trace st |}.

Definition set_heap (v : Heap) (st : zstate) : zstate :=
  {| thread_index := thread_index st;
     used_memory_thread := used_memory_thread st;
     total_active_threads := total_active_threads st;
     used_memory_for_additional_threads := used_memory_for_additional_threads st;
     zmalloc_oom_handler := zmalloc_oom_handler st;
     heap := v; mem := mem st; trace := trace st |}.

Definition set_mem (v : gmap Z Z) (st : zstate) : zstate :=
  {| thread_index := thread_index st;
     used_memory_thread := used_memory_thread st;
     total_active_threads := total_active_threads st;
     used_memory_for_additional_threads := used_memory_for_additional_threads st;
     zmalloc_oom_handler := zmalloc_oom_handler st;
     heap := heap st; mem := v; trace := trace st |}.

(* append an event to the log *)
Definition emit (e : event) (st : zstate) : zstate :=
  {| thread_index := thread_index st;
     used_memory_thread := used_memory_thread st;
     total_active_threads := total_active_threads st;
     used_memory_for_additional_threads := used_memory_for_additional_threads st;
     zmalloc_oom_handler := zmalloc_oom_handler st;
     heap := heap st; mem := mem st; trace := trace st ++ [e] |}.

(** ** The monad *)

Inductive outcome (A : Type) :=
| Done (a : A) (st : zstate)
| Abort (st : zstate)
| Fault.
Global Arguments Done {A} a st.
Global Arguments Abort {A} st.
Global Arguments Fault {A}.

Definition M (A : Type) : Type := zstate -> outcome A.

Definition ret {A} (a : A) : M A := fun st => Done a st.

Definition bind {A B} (m : M A) (k : A -> M B) : M B :=
  fun st =>
    match m st with
    | Done a st' => k a st'
    | Abort st' => Abort st'
    | Fault => Fault
    end.
End State.

Global Arguments zstate : clear implicits.
Global Arguments outcome : clear implicits.
Global Arguments M : clear implicits.

Declare Scope zm_scope.
Delimit Scope zm_scope with zm.
Notation "x <- c1 ;; c2" := (bind c1 (fun x => c2))
  (at level 100, c1 at next level, right associativity) : zm_scope.
Notation "c1 ;;; c2" := (bind c1 (fun _ => c2))
  (at level 100, c2 at level 200, right associativity) : zm_scope.

(** ** The code of zmalloc.c *)

Section Zmalloc.
Context {cfg : Config} {Heap : Type} {alloc : Allocator Heap}.
Local Open Scope zm_scope.

Local Abbreviation M := (M Heap).
Local Abbreviation zstate := (zstate Heap).

(** *** Memory and the allocator shim *)

(* *((size_t * )addr): what a size_t cell holds is a size_t *)
Definition load_size_t (addr : Z) : M Z :=
  fun st =>
    match mem st !! addr with
    | Some v => Done (wrap v) st
    | None => Fault
    end.

(* *((size_t * )addr) = v *)
Definition store_size_t (addr v : Z) : M unit :=
  fun st => Done tt (set_mem (<[addr := v]> (mem st)) st).

(* malloc(size): the block's content is indeterminate *)
Definition malloc (size : Z) : M Z :=
  fun st =>
    let r := sys_malloc size (heap st) in
    Done r.1 (emit (Call_malloc size) (set_heap r.2 st)).

(* calloc(count, size): the block is zero-filled *)
Definition calloc (count size : Z) : M Z :=
  fun st =>
    let r := sys_calloc count size (heap st) in
    let m := if r.1 =? NULL then mem st else <[r.1 := 0]> (mem st) in
    Done r.1 (emit (Call_calloc count size) (set_mem m (set_heap r.2 st))).

(* realloc(ptr, size): on success the old block is gone and its content
   is found in the new one *)
Definition realloc (ptr size : Z) : M Z :=
  fun st =>
    let r := sys_realloc ptr size (heap st) in
    let m :=
      if r.1 =? NULL then mem st
      else match mem st !! ptr with
           | Some v => <[r.1 := v]> (delete ptr (mem st))
           | None => delete ptr (mem st)
           end in
    Done r.1 (emit (Call_realloc ptr size) (set_mem m (set_heap r.2 st))).

(* free(ptr) *)
Definition free (ptr : Z) : M unit :=
  fun st =>
    Done tt (emit (Call_free ptr)
               (set_mem (delete ptr (mem st)) (set_heap (sys_free ptr (heap st)) st))).

(* je_sdallocx(ptr, size, 0) *)
Definition je_sdallocx (ptr size : Z) : M unit :=
  fun st =>
    Done tt (emit (Call_sdallocx ptr size)
               (set_mem (delete ptr (mem st))
                  (set_heap (sys_sdallocx ptr size (heap st)) st))).

(** *** Per-thread accounting *)

(* thread_index = atomic_fetch_add_explicit(&total_active_threads, 1, ...) *)
Definition zmalloc_register_thread_index : M unit :=
  fun st =>
    let old := total_active_threads st in
    Done tt (set_thread_index old (set_total_active_threads (wrap_int (old + 1)) st)).

(* used_memory_thread[i] *)
Definition read_slot (i : Z) : M Z :=
  fun st =>
    if 0 <=? i then
      match used_memory_thread st !! Z.to_nat i with
      | Some v => Done v st
      | None => Fault
      end
    else Fault.

(* used_memory_thread[i] = v *)
Definition write_slot (i v : Z) : M unit :=
  fun st =>
    if (0 <=? i) && (i <? Z.of_nat (length (used_memory_thread st))) then
      Done tt (set_used_memory_thread (<[Z.to_nat i := v]> (used_memory_thread st)) st)
    else Fault.

Definition get_thread_index : M Z := fun st => Done (thread_index st) st.

Definition update_zmalloc_stat_alloc (size : Z) : M unit :=
  fun st0 =>
    (idx <- get_thread_index ;;
     (if idx =? -1 then zmalloc_register_thread_index else ret tt) ;;;
     idx <- get_thread_index ;;
     if idx >=? MAX_THREADS_NUM then
       fun st =>
         Done tt (set_used_memory_for_additional_threads
                    (wrap (used_memory_for_additional_threads st + size)) st)
     else
       v <- read_slot idx ;;
       write_slot idx (wrap (v + size)))
    (emit (Stat_alloc size) st0).

Definition update_zmalloc_stat_free (size : Z) : M unit :=
  fun st0 =>
    (idx <- get_thread_index ;;
     (if idx =? -1 then zmalloc_register_thread_index else ret tt) ;;;
     idx <- get_thread_index ;;
     if idx >=? MAX_THREADS_NUM then
       fun st =>
         Done tt (set_used_memory_for_additional_threads
                    (wrap (used_memory_for_additional_threads st - size)) st)
     else
       v <- read_slot idx ;;
       write_slot idx (wrap (v - size)))
    (emit (Stat_free size) st0).

(** *** The out-of-memory handler *)

(* zmalloc_oom_handler(size) *)
Definition call_oom_handler (size : Z) : M unit :=
  fun st =>
    let h := zmalloc_oom_handler st in
    let st' := emit (Call_oom h size) st in
    if handler_returns h size then Done tt st' else Abort st'.

(* void zmalloc_set_oom_handler(void ( *oom_handler)(size_t)) *)
Definition zmalloc_set_oom_handler (oom_handler : oom_handler) : M unit :=
  fun st => Done tt (set_oom_handler oom_handler st).

(** *** Usable size *)

(* The out-parameter [size_t *usable]: [None] is a NULL pointer, [Some v]
   a cell that holds [v]. *)
Definition write_out (usable : option Z) (v : Z) : option Z :=
  match usable with
  | Some _ => Some v
  | None => None
  end.

(* extend_to_usable(ptr, size) *)
Definition extend_to_usable (ptr size : Z) : Z := ptr.

(* size_t zmalloc_size(void *ptr): the allocator's own query on
   HAVE_MALLOC_SIZE builds (bound in zmalloc.h), the header otherwise *)
Definition zmalloc_size (ptr : Z) : M Z :=
  if HAVE_MALLOC_SIZE then
    fun st => Done (sys_malloc_size ptr (heap st)) st
  else
    let realptr := ptr - PREFIX_SIZE in
    size <- load_size_t realptr ;;
    ret (wrap (size + PREFIX_SIZE)).

(** Modelled from the spec: on a HAVE_MALLOC_SIZE build
    [zmalloc_usable_size] is a macro of zmalloc.h, which is not among the
    sources; the spec's native strategy obtains the usable size by asking
    the allocator directly. *)
Definition zmalloc_usable_size_native (ptr : Z) : M Z := zmalloc_size ptr.

(* size_t zmalloc_usable_size(void *ptr) *)
Definition zmalloc_usable_size (ptr : Z) : M Z :=
  if HAVE_MALLOC_SIZE then zmalloc_usable_size_native ptr
  else
    s <- zmalloc_size ptr ;;
    ret (wrap (s - PREFIX_SIZE)).
(** *** Allocation *)

(* static inline void *ztrymalloc_usable_internal(size_t size, size_t *usable)
   returns the pointer and the content of the cell [usable] *)
Definition ztrymalloc_usable_internal (size : Z) (usable : option Z) : M (Z * option Z) :=
  if size >=? SIZE_MAX / 2 then ret (NULL, usable)
  else
    ptr <- malloc (wrap (MALLOC_MIN_SIZE size + PREFIX_SIZE)) ;;
    if ptr =? NULL then ret (NULL, usable)
    else if HAVE_MALLOC_SIZE then
      size <- zmalloc_size ptr ;;
      update_zmalloc_stat_alloc size ;;;
      ret (ptr, write_out usable size)
    else
      let size := MALLOC_MIN_SIZE size in
      store_size_t ptr size ;;;
      update_zmalloc_stat_alloc (wrap (size + PREFIX_SIZE)) ;;;
      ret (ptr + PREFIX_SIZE, write_out usable size).

(* void *ztrymalloc_usable(size_t size, size_t *usable) *)
Definition ztrymalloc_usable (size : Z) (usable : option Z) : M (Z * option Z) :=
  let usable_size := 0 in
  r <- ztrymalloc_usable_internal size (Some usable_size) ;;
  let ptr := r.1 in
  let usable_size := default 0 r.2 in
  let ptr := if HAVE_MALLOC_SIZE then extend_to_usable ptr usable_size else ptr in
  ret (ptr, write_out usable usable_size).

(* void *zmalloc(size_t size) *)
Definition zmalloc (size : Z) : M Z :=
  r <- ztrymalloc_usable_internal size None ;;
  let ptr := r.1 in
  (if ptr =? NULL then call_oom_handler size else ret tt) ;;;
  ret ptr.

(* void *ztrymalloc(size_t size) *)
Definition ztrymalloc (size : Z) : M Z :=
  r <- ztrymalloc_usable_internal size None ;;
  ret r.1.

(* void *zmalloc_usable(size_t size, size_t *usable) *)
Definition zmalloc_usable (size : Z) (usable : option Z) : M (Z * option Z) :=
  let usable_size := 0 in
  r <- ztrymalloc_usable_internal size (Some usable_size) ;;
  let ptr := r.1 in
  let usable_size := default 0 r.2 in
  (if ptr =? NULL then call_oom_handler size else ret tt) ;;;
  let ptr := if HAVE_MALLOC_SIZE then extend_to_usable ptr usable_size else ptr in
  ret (ptr, write_out usable usable_size).

(* static inline void *ztrycalloc_usable_internal(size_t size, size_t *usable) *)
Definition ztrycalloc_usable_internal (size : Z) (usable : option Z) : M (Z * option Z) :=
  if size >=? SIZE_MAX / 2 then ret (NULL, usable)
  else
    ptr <- calloc 1 (wrap (MALLOC_MIN_SIZE size + PREFIX_SIZE)) ;;
    if ptr =? NULL then ret (NULL, usable)
    else if HAVE_MALLOC_SIZE then
      size <- zmalloc_size ptr ;;
      update_zmalloc_stat_alloc size ;;;
      ret (ptr, write_out usable size)
    else
      let size := MALLOC_MIN_SIZE size in
      store_size_t ptr size ;;;
      update_zmalloc_stat_alloc (wrap (size + PREFIX_SIZE)) ;;;
      ret (ptr + PREFIX_SIZE, write_out usable size).

(* void *ztrycalloc_usable(size_t size, size_t *usable) *)
Definition ztrycalloc_usable (size : Z) (usable : option Z) : M (Z * option Z) :=
  let usable_size := 0 in
  r <- ztrycalloc_usable_internal size (Some usable_size) ;;
  let ptr := r.1 in
  let usable_size := default 0 r.2 in
  let ptr := if HAVE_MALLOC_SIZE then extend_to_usable ptr usable_size else ptr in
  ret (ptr, write_out usable usable_size).

(* void *zcalloc_num(size_t num, size_t size);  [||] does not evaluate the
   division when [size] is zero *)
Definition zcalloc_num (num size : Z) : M Z :=
  if (size =? 0) || (num >? SIZE_MAX / size) then
    call_oom_handler SIZE_MAX ;;;
    ret NULL
  else
    r <- ztrycalloc_usable_internal (wrap (num * size)) None ;;
    let ptr := r.1 in
    (if ptr =? NULL then call_oom_handler (wrap (num * size)) else ret tt) ;;;
    ret ptr.

(* void *zcalloc(size_t size) *)
Definition zcalloc (size : Z) : M Z :=
  r <- ztrycalloc_usable_internal size None ;;
  let ptr := r.1 in
  (if ptr =? NULL then call_oom_handler size else ret tt) ;;;
  ret ptr.

(* void *ztrycalloc(size_t size) *)
Definition ztrycalloc (size : Z) : M Z :=
  r <- ztrycalloc_usable_internal size None ;;
  ret r.1.

(* void *zcalloc_usable(size_t size, size_t *usable) *)
Definition zcalloc_usable (size : Z) (usable : option Z) : M (Z * option Z) :=
  let usable_size := 0 in
  r <- ztrycalloc_usable_internal size (Some usable_size) ;;
  let ptr := r.1 in
  let usable_size := default 0 r.2 in
  (if ptr =? NULL then call_oom_handler size else ret tt) ;;;
  let ptr := if HAVE_MALLOC_SIZE then extend_to_usable ptr usable_size else ptr in
  ret (ptr, write_out usable usable_size).

(** *** Release *)

(* static inline void zfree_internal(void *ptr, size_t size);  a failed
   assert terminates the process *)
Definition zfree_internal (ptr size : Z) : M unit :=
  if ptr =? NULL then (fun st => Abort st)
  else
    update_zmalloc_stat_free size ;;;
    if USE_JEMALLOC then je_sdallocx ptr size else free ptr.

(* void zfree(void *ptr) *)
Definition zfree (ptr : Z) : M unit :=
  if ptr =? NULL then ret tt
  else if HAVE_MALLOC_SIZE then
    size <- zmalloc_size ptr ;;
    zfree_internal ptr size
  else
    let ptr := ptr - PREFIX_SIZE in
    data_size <- load_size_t ptr ;;
    let size := wrap (data_size + PREFIX_SIZE) in
    zfree_internal ptr size.

(* void zfree_with_size(void *ptr, size_t size) *)
Definition zfree_with_size (ptr size : Z) : M unit :=
  if ptr =? NULL then ret tt
  else if HAVE_MALLOC_SIZE then zfree_internal ptr size
  else
    let ptr := ptr - PREFIX_SIZE in
    let size := wrap (size + PREFIX_SIZE) in
    zfree_internal ptr size.

(** *** Reallocation *)

(* static inline void *ztryrealloc_usable_internal(void *ptr, size_t size,
                                                   size_t *usable) *)
Definition ztryrealloc_usable_internal (ptr size : Z) (usable : option Z)
  : M (Z * option Z) :=
  if (size =? 0) && negb (ptr =? NULL) then
    zfree ptr ;;;
    ret (NULL, write_out usable 0)
  else if ptr =? NULL then ztrymalloc_usable size usable
  else if size >=? SIZE_MAX / 2 then
    zfree ptr ;;;
    ret (NULL, write_out usable 0)
  else if HAVE_MALLOC_SIZE then
    oldsize <- zmalloc_size ptr ;;
    newptr <- realloc ptr size ;;
    if newptr =? NULL then ret (NULL, write_out usable 0)
    else
      update_zmalloc_stat_free oldsize ;;;
      size <- zmalloc_size newptr ;;
      update_zmalloc_stat_alloc size ;;;
      ret (newptr, write_out usable size)
  else
    let realptr := ptr - PREFIX_SIZE in
    oldsize <- load_size_t realptr ;;
    newptr <- realloc realptr (wrap (size + PREFIX_SIZE)) ;;
    if newptr =? NULL then ret (NULL, write_out usable 0)
    else
      store_size_t newptr size ;;;
      update_zmalloc_stat_free oldsize ;;;
      update_zmalloc_stat_alloc size ;;;
      ret (newptr + PREFIX_SIZE, write_out usable size).

(* void *ztryrealloc_usable(void *ptr, size_t size, size_t *usable) *)
Definition ztryrealloc_usable (ptr size : Z) (usable : option Z) : M (Z * option Z) :=
  let usable_size := 0 in
  r <- ztryrealloc_usable_internal ptr size (Some usable_size) ;;
  let ptr := r.1 in
  let usable_size := default 0 r.2 in
  let ptr := if HAVE_MALLOC_SIZE then extend_to_usable ptr usable_size else ptr in
  ret (ptr, write_out usable usable_size).

(* void *zrealloc(void *ptr, size_t size) *)
Definition zrealloc (ptr size : Z) : M Z :=
  r <- ztryrealloc_usable_internal ptr size None ;;
  let ptr := r.1 in
  (if (ptr =? NULL) && negb (size =? 0) then call_oom_handler size else ret tt) ;;;
  ret ptr.

(* void *ztryrealloc(void *ptr, size_t size) *)
Definition ztryrealloc (ptr size : Z) : M Z :=
  r <- ztryrealloc_usable_internal ptr size None ;;
  ret r.1.

(* void *zrealloc_usable(void *ptr, size_t size, size_t *usable) *)
Definition zrealloc_usable (ptr size : Z) (usable : option Z) : M (Z * option Z) :=
  let usable_size := 0 in
  r <- ztryrealloc_usable ptr size (Some usable_size) ;;
  let ptr := r.1 in
  let usable_size := default 0 r.2 in
  (if (ptr =? NULL) && negb (size =? 0) then call_oom_handler size else ret tt) ;;;
  let ptr := if HAVE_MALLOC_SIZE then extend_to_usable ptr usable_size else ptr in
  ret (ptr, write_out usable usable_size).

(** *** The aggregate query *)

(* for (int i = 0; i < threads_num; i++) um += used_memory_thread[i]; *)
Fixpoint sum_slots (indices : list Z) (um : Z) : M Z :=
  match indices with
  | [] => ret um
  | i :: rest =>
      v <- read_slot i ;;
      sum_slots rest (wrap (um + v))
  end.

(* the number of iterations of the loop of zmalloc_used_memory *)
Definition used_memory_threads_num (st : zstate) : Z :=
  if total_active_threads st >? MAX_THREADS_NUM then MAX_THREADS_NUM
  else total_active_threads st.

(* the values of [i] the loop of zmalloc_used_memory runs its body on:
   0, 1, ..., threads_num - 1 *)
Definition used_memory_indices (st : zstate) : list Z :=
  seqZ 0 (used_memory_threads_num st).

(* size_t zmalloc_used_memory(void) *)
Definition zmalloc_used_memory : M Z :=
  fun st =>
    let um := 0 in
    let um :=
      if total_active_threads st >? MAX_THREADS_NUM
      then wrap (um + used_memory_for_additional_threads st)
      else um in
    sum_slots (used_memory_indices st) um st.
End Zmalloc.

(** ** States of a run *)

Section Invariant.
Context {cfg : Config} {Heap : Type}.

(* The values of the static variables when the process starts. *)
Definition initial_state (h : Heap) : zstate Heap :=
  {| thread_index := -1;
     used_memory_thread := replicate (Z.to_nat MAX_THREADS_NUM) 0;
     total_active_threads := 0;
     used_memory_for_additional_threads := 0;
     zmalloc_oom_handler := zmalloc_default_oom;
     heap := h; mem := ∅; trace := [] |}.

(* What holds of the accounting variables in every state a single thread of
   calls reaches from [initial_state]: the table has its declared length,
   counters are [size_t] values, the calling thread is either not yet
   registered (and can still be) or holds an index that has been handed out,
   and the counters no thread uses yet are still zero. *)
Record wf_state (st : zstate Heap) : Prop := {
  wf_table : Z.of_nat (length (used_memory_thread st)) = MAX_THREADS_NUM;
  wf_slots : forall i v, used_memory_thread st !! i = Some v -> 0 <= v <= SIZE_MAX;
  wf_additional : 0 <= used_memory_for_additional_threads st <= SIZE_MAX;
  wf_total : 0 <= total_active_threads st <= INT_MAX;
  wf_index :
    (thread_index st = -1 /\ total_active_threads st < INT_MAX) \/
    0 <= thread_index st < total_active_threads st;
  wf_unused_slots : forall i v,
    total_active_threads st <= Z.of_nat i ->
    used_memory_thread st !! i = Some v -> v = 0;
  wf_unused_additional :
    total_active_threads st <= MAX_THREADS_NUM ->
    used_memory_for_additional_threads st = 0
}.

Definition slot_sum (l : list Z) : Z := foldr Z.add 0 l.

(* The aggregate as a function of the state: the overflow counter when more
   threads than slots have registered, plus the slots handed out. *)
Definition used_memory_value (st : zstate Heap) : Z :=
  wrap ((if total_active_threads st >? MAX_THREADS_NUM
         then used_memory_for_additional_threads st else 0)
        + slot_sum (take (Z.to_nat (Z.min (total_active_threads st) MAX_THREADS_NUM))
                      (used_memory_thread st))).

(* The state a call ended in. *)
Definition final_state {A} (o : outcome Heap A) (d : zstate Heap) : zstate Heap :=
  match o with
  | Done _ st => st
  | Abort st => st
  | Fault => d
  end.
End Invariant.

(** ** Reading the log *)

Definition is_stat_free (e : event) : bool :=
  match e with Stat_free _ => true | _ => false end.
Definition is_stat_alloc (e : event) : bool :=
  match e with Stat_alloc _ => true | _ => false end.
Definition is_realloc (e : event) : bool :=
  match e with Call_realloc _ _ => true | _ => false end.

(* position of the first event that satisfies [f] *)
Fixpoint position (f : event -> bool) (evs : list event) : option nat :=
  match evs with
  | [] => None
  | e :: rest => if f e then Some O else S <$> position f rest
  end.

(* The accounting updates bracket the reallocation: the removal of the old
   size comes before the call of the underlying realloc, the addition of
   the new size after it. *)
Definition brackets_realloc (evs : list event) : bool :=
  match position is_stat_free evs, position is_realloc evs,
        position is_stat_alloc evs with
  | Some i, Some j, Some k => (i <? j)%nat && (j <? k)%nat
  | _, _, _ => false
  end.

(** ** Vocabulary of the properties *)

Section Vocabulary.
Context {cfg : Config} {Heap : Type} {alloc : Allocator Heap}.
Local Open Scope zm_scope.

Local Abbreviation M := (M Heap).
Local Abbreviation zstate := (zstate Heap).

Implicit Types (st : zstate) (ptr size : Z).

(* what a call of the registered handler leaves behind *)
Definition oom_outcome {A} (a : A) (size : Z) st : outcome Heap A :=
  let h := zmalloc_oom_handler st in
  if handler_returns h size
  then Done a (emit (Call_oom h size) st)
  else Abort (emit (Call_oom h size) st).

(* the two states agree on the accounting variables *)
Definition same_accounting st st' : Prop :=
  thread_index st' = thread_index st /\
  used_memory_thread st' = used_memory_thread st /\
  total_active_threads st' = total_active_threads st /\
  used_memory_for_additional_threads st' = used_memory_for_additional_threads st.

(* both updates move the counter of the calling thread by a signed amount *)
Definition account (delta : Z) : M unit :=
  idx <- get_thread_index ;;
  (if idx =? -1 then zmalloc_register_thread_index else ret tt) ;;;
  idx <- get_thread_index ;;
  if idx >=? MAX_THREADS_NUM then
    fun st =>
      Done tt (set_used_memory_for_additional_threads
                 (wrap (used_memory_for_additional_threads st + delta)) st)
  else
    v <- read_slot idx ;;
    write_slot idx (wrap (v + delta)).

(* the call of the underlying allocator that gives a block back *)
Definition release_event (p sz : Z) : event :=
  if USE_JEMALLOC then Call_sdallocx p sz else Call_free p.

Definition release_heap (p sz : Z) (h : Heap) : Heap :=
  if USE_JEMALLOC then sys_sdallocx p sz h else sys_free p h.

(* the usable size of a block of [size] requested bytes at [p] in heap [h] *)
Definition usable_of (size p : Z) (h : Heap) : Z :=
  if HAVE_MALLOC_SIZE then sys_malloc_size p h else MALLOC_MIN_SIZE size.

(* the number of bytes the block is accounted for *)
Definition accounted_of (size p : Z) (h : Heap) : Z :=
  if HAVE_MALLOC_SIZE then sys_malloc_size p h
  else wrap (MALLOC_MIN_SIZE size + PREFIX_SIZE).

(* the number of bytes a block of usable size [u] is accounted for: the
   header is part of it *)
Definition accounted_size (u : Z) : Z :=
  if HAVE_MALLOC_SIZE then u else wrap (u + PREFIX_SIZE).

(** The statements of the specification that the code does not satisfy,
    as the specification words them. *)

(* the accounting updates of a reallocation bracket the call of the
   underlying realloc *)
Definition realloc_brackets_claim ptr size st : Prop :=
  exists r st',
    ztryrealloc_usable_internal ptr size None st = Done r st' /\
    brackets_realloc (drop (length (trace st)) (trace st')) = true.

(* a request below the minimum allocation unit is rounded up to it, and on
   a header build the usable size of the block is the rounded size *)
Definition min_unit_rounding_claim size st : Prop :=
  exists ptr st',
    ztrymalloc size st = Done ptr st' /\ ptr <> NULL /\
    (HAVE_MALLOC_SIZE = false ->
     zmalloc_usable_size ptr st' = Done sizeof_long st').

(* reallocation to a size at or above the overflow threshold takes the
   usable size of the block off the accounting *)
Definition overflow_free_by_usable_size_claim ptr size st : Prop :=
  exists u um st',
    zmalloc_usable_size ptr st = Done u st /\
    zmalloc_used_memory st = Done um st /\
    ztryrealloc ptr size st = Done NULL st' /\
    zmalloc_used_memory st' = Done (wrap (um - u)) st'.
End Vocabulary.

(** ** Page release hint *)

Section Madvise.
Context {cfg : Config} {Heap : Type} {alloc : Allocator Heap}.
Local Open Scope zm_scope.

(* void zmadvise_dontneed(void *ptr, size_t size_hint)

   [linux] is [defined(__linux__)] and [page_size] is what
   [sysconf(_SC_PAGESIZE)] returns (the function keeps it in a static
   variable). The result is the call
   [madvise(addr, length, MADV_DONTNEED)] the function ends with, as
   [Some (addr, length)], or [None] when it returns without one. *)
Definition zmadvise_dontneed (linux : bool) (page_size : Z) (ptr size_hint : Z)
  : M Heap (option (Z * Z)) :=
  if USE_JEMALLOC && linux then
    if ptr =? NULL then ret None
    else
      let page_size_mask := wrap (page_size - 1) in
      if negb (size_hint =? 0) && (size_hint / 2 <? page_size) then ret None
      else
        real_size <- zmalloc_size ptr ;;
        if real_size <? page_size then ret None
        else
          let aligned_ptr :=
            Z.land (wrap (ptr + page_size_mask)) (wrap (Z.lnot page_size_mask)) in
          let real_size := wrap (real_size - (aligned_ptr - ptr)) in
          if real_size >=? page_size then
            ret (Some (aligned_ptr,
                       Z.land real_size (wrap (Z.lnot page_size_mask))))
          else ret None
  else ret None.

(* a computation that keeps the accounting invariant *)
Definition preserves_wf {A} (m : M Heap A) : Prop :=
  forall st a st', wf_state st -> m st = Done a st' -> wf_state st'.
End Madvise.

(** ** Sequences of calls *)

(* the calls a single thread can make *)
Inductive api_call :=
| call_zmalloc (size : Z)
| call_ztrymalloc (size : Z)
| call_zmalloc_usable (size : Z) (usable : option Z)
| call_ztrymalloc_usable (size : Z) (usable : option Z)
| call_zcalloc (size : Z)
| call_ztrycalloc (size : Z)
| call_zcalloc_usable (size : Z) (usable : option Z)
| call_ztrycalloc_usable (size : Z) (usable : option Z)
| call_zcalloc_num (num size : Z)
| call_zrealloc (ptr size : Z)
| call_ztryrealloc (ptr size : Z)
| call_zrealloc_usable (ptr size : Z) (usable : option Z)
| call_ztryrealloc_usable (ptr size : Z) (usable : option Z)
| call_zfree (ptr : Z)
| call_zfree_with_size (ptr size : Z)
| call_zmalloc_size (ptr : Z)
| call_zmalloc_usable_size (ptr : Z)
| call_zmalloc_used_memory
| call_zmalloc_set_oom_handler (h : oom_handler).

Section Api.
Context {cfg : Config} {Heap : Type} {alloc : Allocator Heap}.
Local Open Scope zm_scope.

(* run a call and drop what it returns *)
Definition run_call (c : api_call) : M Heap unit :=
  match c with
  | call_zmalloc size => zmalloc size ;;; ret tt
  | call_ztrymalloc size => ztrymalloc size ;;; ret tt
  | call_zmalloc_usable size usable => zmalloc_usable size usable ;;; ret tt
  | call_ztrymalloc_usable size usable => ztrymalloc_usable size usable ;;; ret tt
  | call_zcalloc size => zcalloc size ;;; ret tt
  | call_ztrycalloc size => ztrycalloc size ;;; ret tt
  | call_zcalloc_usable size usable => zcalloc_usable size usable ;;; ret tt
  | call_ztrycalloc_usable size usable => ztrycalloc_usable size usable ;;; ret tt
  | call_zcalloc_num num size => zcalloc_num num size ;;; ret tt
  | call_zrealloc ptr size => zrealloc ptr size ;;; ret tt
  | call_ztryrealloc ptr size => ztryrealloc ptr size ;;; ret tt
  | call_zrealloc_usable ptr size usable => zrealloc_usable ptr size usable ;;; ret tt
  | call_ztryrealloc_usable ptr size usable =>
      ztryrealloc_usable ptr size usable ;;; ret tt
  | call_zfree ptr => zfree ptr
  | call_zfree_with_size ptr size => zfree_with_size ptr size
  | call_zmalloc_size ptr => zmalloc_size ptr ;;; ret tt
  | call_zmalloc_usable_size ptr => zmalloc_usable_size ptr ;;; ret tt
  | call_zmalloc_used_memory => zmalloc_used_memory ;;; ret tt
  | call_zmalloc_set_oom_handler h => zmalloc_set_oom_handler h
  end.

(* run the calls one after the other, as long as they return *)
Fixpoint run_calls (cs : list api_call) : M Heap unit :=
  match cs with
  | [] => ret tt
  | c :: rest => run_call c ;;; run_calls rest
  end.
End Api.

(** ** Reading /proc/self/stat

    Characters are their codes. A [char *] into a NUL-terminated string is
    the list of the characters from it to the terminator; NULL is [None]. *)

Definition LLONG_MAX : Z := 9223372036854775807.
Definition LLONG_MIN : Z := -9223372036854775808.

(* int isspace(int c), in the C locale *)
Definition isspace (c : Z) : bool := (c =? 32) || ((9 <=? c) && (c <=? 13)).

(* int isdigit(int c) *)
Definition isdigit (c : Z) : bool := (48 <=? c) && (c <=? 57).

(* the string a buffer holds: the characters before the first NUL *)
Fixpoint c_string (buf : list Z) : list Z :=
  match buf with
  | [] => []
  | c :: rest => if c =? 0 then [] else c :: c_string rest
  end.

(* char *strchr(const char *s, int c), for a [c] other than NUL *)
Fixpoint strchr (s : list Z) (c : Z) : option (list Z) :=
  match s with
  | [] => None
  | x :: rest => if x =? c then Some s else strchr rest c
  end.

(* char *strrchr(const char *s, int c), for a [c] other than NUL *)
Fixpoint strrchr (s : list Z) (c : Z) : option (list Z) :=
  match s with
  | [] => None
  | x :: rest =>
      match strrchr rest c with
      | Some t => Some t
      | None => if x =? c then Some s else None
      end
  end.

(* while ( *p == ' ') p++; *)
Fixpoint skip_spaces (p : list Z) : list Z :=
  match p with
  | c :: rest => if c =? 32 then skip_spaces rest else p
  | [] => []
  end.

(* the characters of [p] before its first space: the string at [p] once
   [x = strchr(p, ' '); if (x) *x = '\0';] has run *)
Fixpoint until_space (p : list Z) : list Z :=
  match p with
  | c :: rest => if c =? 32 then [] else c :: until_space rest
  | [] => []
  end.

(* the white space strtoll skips *)
Fixpoint skip_isspace (s : list Z) : list Z :=
  match s with
  | c :: rest => if isspace c then skip_isspace rest else s
  | [] => []
  end.

(* the digits strtoll reads: the number so far and what follows it *)
Fixpoint strtoll_digits (s : list Z) (acc : Z) : Z * list Z :=
  match s with
  | c :: rest =>
      if isdigit c then strtoll_digits rest (acc * 10 + (c - 48)) else (acc, s)
  | [] => (acc, [])
  end.

(* strtol and strtoll in base 10, for a result type that holds [lo .. hi]:
   the value and [*endptr]. White space is skipped, then a sign is read,
   then the digits. A value out of range is [lo] or [hi]; without a digit
   nothing is converted and [*endptr] is [nptr]. *)
Definition strto (lo hi : Z) (nptr : list Z) : Z * list Z :=
  let s := skip_isspace nptr in
  let signed :=
    match s with
    | c :: rest =>
        if c =? 45 then (true, rest)
        else if c =? 43 then (false, rest)
        else (false, s)
    | [] => (false, s)
    end in
  match signed.2 with
  | c :: _ =>
      if isdigit c then
        let r := strtoll_digits signed.2 0 in
        (Z.max lo (Z.min hi (if signed.1 then - r.1 else r.1)), r.2)
      else (0, nptr)
  | [] => (0, nptr)
  end.

(* long long strtoll(const char *nptr, char **endptr, 10) *)
Definition strtoll (nptr : list Z) : Z * list Z := strto LLONG_MIN LLONG_MAX nptr.

(* while (p && i--) { p = strchr(p, ' '); if (p) p++; else return 0; }
   for an [i] that is not negative: [None] is the return *)
Fixpoint skip_fields (i : nat) (p : list Z) : option (list Z) :=
  match i with
  | O => Some p
  | S i' =>
      match strchr p 32 with
      | Some q => skip_fields i' (tail q)
      | None => None
      end
  end.

(* int get_proc_stat_ll(int i, long long *res)

   [have_proc_stat] is [defined(HAVE_PROC_STAT)]. [data] is what
   [read(fd, buf, sizeof(buf) - 1)] delivered from /proc/self/stat, [None]
   when [open] or [read] failed. The result is the value returned and the
   value written to [*res], if one was. *)
Definition get_proc_stat_ll (have_proc_stat : bool) (i : Z) (data : option (list Z))
  : Z * option Z :=
  if have_proc_stat then
    match data with
    | None => (0, None)
    | Some bytes =>
        let buf := take 4095 bytes in
        let l := length buf in
        if (l =? 0)%nat then (0, None)
        else
          (* buf[l] = '\0'; if (buf[l - 1] == '\n') buf[l - 1] = '\0'; *)
          let buf :=
            if default 0 (buf !! (l - 1)%nat) =? 10
            then <[(l - 1)%nat := 0]> buf else buf in
          let s := c_string buf in
          match strrchr s 41 with
          | None => (0, None)
          | Some p =>
              let p := skip_spaces (tail p) in
              match p with
              | [] => (0, None)
              | _ =>
                  let i := i - 3 in
                  if i <? 0 then (0, None)
                  else
                    match skip_fields (Z.to_nat i) p with
                    | None => (0, None)
                    | Some p =>
                        let r := strtoll (until_space p) in
                        match r.2 with
                        | [] => (1, Some r.1)
                        | _ => (0, Some r.1)
                        end
                    end
              end
          end
    end
  else (0, None).


(** Lines of /proc/self/stat, for the statements about the parser *)

(* the fields, one space between two of them *)
Fixpoint join_fields (fields : list (list Z)) : list Z :=
  match fields with
  | [] => []
  | [f] => f
  | f :: rest => f ++ 32 :: join_fields rest
  end.

(* a field: not empty, without NUL, space, closing parenthesis or newline *)
Definition field_ok (f : list Z) : Prop :=
  f <> [] /\ Forall (fun c => c <> 0 /\ c <> 32 /\ c <> 41 /\ c <> 10) f.

(* "pid (comm) f3 f4 ...": [head] is the pid and the command name up to its
   closing parenthesis; the kernel ends the line with a newline *)
Definition stat_line (head : list Z) (fields : list (list Z)) : list Z :=
  head ++ [41; 32] ++ join_fields fields ++ [10].

(* a decimal digit *)
Definition digit_char (c : Z) : Prop := 48 <= c <= 57.

(* the decimal digits of [n], the last one first *)
Fixpoint decimal_rev (fuel : nat) (n : Z) : list Z :=
  match fuel with
  | O => []
  | S fuel' =>
      (48 + n mod 10) :: (if n <? 10 then [] else decimal_rev fuel' (n / 10))
  end.

(* "%lld" of a number from 0 to LLONG_MAX *)
Definition decimal (n : Z) : list Z := rev (decimal_rev 19 n).

(** ** Reading /proc/self/smaps *)

Section Smaps.
Context {cfg : Config}.

(* the values of a long *)
Definition LONG_MAX : Z := 2 ^ (8 * sizeof_long - 1) - 1.
Definition LONG_MIN : Z := - 2 ^ (8 * sizeof_long - 1).

(* long strtol(const char *nptr, NULL, 10) *)
Definition strtol (nptr : list Z) : Z := (strto LONG_MIN LONG_MAX nptr).1.

(* the index of the first [c] of a string: where strchr points *)
Fixpoint index_of (s : list Z) (c : Z) : option nat :=
  match s with
  | [] => None
  | x :: rest => if x =? c then Some O else S <$> index_of rest c
  end.

(* the body of the loop of zmalloc_get_smap_bytes_by_field on one line:
     if (strncmp(line, field, flen) == 0) {
         char *p = strchr(line, 'k');
         if (p) { *p = '\0'; bytes += strtol(line + flen, NULL, 10) * 1024; }
     }
   [line] is what fgets returned, [field] the string of length [flen] *)
Definition smap_line (field line : list Z) (bytes : Z) : Z :=
  let flen := length field in
  if bool_decide (take flen line = field) then
    match index_of line 107 with
    | Some k =>
        let buf := <[k := 0]> line in
        wrap (bytes + strtol (c_string (drop flen buf)) * 1024)
    | None => bytes
    end
  else bytes.

(* size_t zmalloc_get_smap_bytes_by_field(char *field, long pid), on a
   HAVE_PROC_SMAPS build. [file] is [None] when fopen failed, and else the
   strings the calls of fgets return, one after the other. *)
Definition zmalloc_get_smap_bytes_by_field (field : list Z)
    (file : option (list (list Z))) : Z :=
  match file with
  | None => 0
  | Some lines => fold_left (fun bytes line => smap_line field line bytes) lines 0
  end.

(* "Name:   n kB\n", a line of the file *)
Definition smaps_entry (name : list Z) (n : Z) : list Z :=
  name ++ [32; 32; 32] ++ decimal n ++ [32; 107; 66; 10].


End Smaps.

(** ** A concrete build and a concrete allocator

    Two configurations of a 64-bit build (size header, and jemalloc with
    its native usable-size query) and a bump allocator that satisfies the
    laws of [Allocator]; the examples below run the code on them. *)

Module Sample.

Definition cfg_header : Config :=
  {| HAVE_MALLOC_SIZE := false; USE_JEMALLOC := false;
     size_t_bits := 64; sizeof_long := 8; IO_THREADS_MAX_NUM := 256 |}.

Definition cfg_native : Config :=
  {| HAVE_MALLOC_SIZE := true; USE_JEMALLOC := true;
     size_t_bits := 64; sizeof_long := 8; IO_THREADS_MAX_NUM := 256 |}.

(* [next] is the first free address, [limit] the end of the arena, [sizes]
   the usable size of every live block *)
Record bump := { next : positive; limit : Z; sizes : gmap Z Z }.

Definition bump_usable (n : Z) : Z := Z.max n 24.

Definition bump_malloc (n : Z) (h : bump) : Z * bump :=
  if Z.pos (next h) + bump_usable n <=? limit h then
    (Z.pos (next h),
     {| next := next h + Z.to_pos (bump_usable n); limit := limit h;
        sizes := <[Z.pos (next h) := bump_usable n]> (sizes h) |})
  else (NULL, h).

Definition bump_calloc (count n : Z) (h : bump) : Z * bump :=
  bump_malloc (count * n) h.

Definition bump_realloc (p n : Z) (h : bump) : Z * bump :=
  if Z.pos (next h) + bump_usable n <=? limit h then
    (Z.pos (next h),
     {| next := next h + Z.to_pos (bump_usable n); limit := limit h;
        sizes := <[Z.pos (next h) := bump_usable n]> (delete p (sizes h)) |})
  else (NULL, h).

Definition bump_free (p : Z) (h : bump) : bump :=
  {| next := next h; limit := limit h; sizes := delete p (sizes h) |}.

Definition bump_sdallocx (p size : Z) (h : bump) : bump := bump_free p h.

Definition bump_malloc_size (p : Z) (h : bump) : Z := default 0 (sizes h !! p).

Definition bump_allocator : Allocator bump :=
  {| sys_malloc := bump_malloc;
     sys_calloc := bump_calloc;
     sys_realloc := bump_realloc;
     sys_free := bump_free;
     sys_sdallocx := bump_sdallocx;
     sys_malloc_size := bump_malloc_size |}.

(* an arena of 1 MiB that starts at address 4096 *)
Definition heap0 : bump := {| next := 4096; limit := 4096 + 1048576; sizes := ∅ |}.

(* the process at its start *)
Definition st0 (cfg : Config) : zstate bump := @initial_state cfg bump heap0.

(* the process after its first thread allocated one block of 16 bytes *)
Definition st1 (cfg : Config) : zstate bump :=
  final_state (@ztrymalloc cfg bump bump_allocator 16 (st0 cfg)) (st0 cfg).

(* the address of that block *)
Definition ptr1 (cfg : Config) : Z :=
  match @ztrymalloc cfg bump bump_allocator 16 (st0 cfg) with
  | Done p _ => p
  | _ => NULL
  end.

(* the same process when the arena has no room for a larger block *)
Definition st1_full (cfg : Config) : zstate bump :=
  set_heap {| next := next (heap (st1 cfg)); limit := Z.pos (next (heap (st1 cfg)));
              sizes := sizes (heap (st1 cfg)) |} (st1 cfg).

(* the jemalloc process after a second block, of 20000 bytes *)
Definition st2_native : zstate bump :=
  final_state (@ztrymalloc cfg_native bump bump_allocator 20000 (st1 cfg_native))
    (st1 cfg_native).

(* "42 (a )b": a command name with a space and a parenthesis in it *)
Definition stat_head : list Z := [52; 50; 32; 40; 97; 32; 41; 98].

(* the state letter S, twenty numbers, 1234 as field 24, and 7 *)
Definition stat_fields : list (list Z) :=
  [83] :: (decimal <$> seqZ 100 20) ++ [decimal 1234; decimal 7].

(* "Locked:", a field whose name holds a 'k', and "Rss:" *)
Definition smaps_locked : list Z := [76; 111; 99; 107; 101; 100; 58].
Definition smaps_rss : list Z := [82; 115; 115; 58].

(* three lines of /proc/self/smaps *)
Definition smaps_entries : list (list Z * Z) :=
  [(smaps_rss, 100); (smaps_locked, 3); (smaps_locked, 4)].

(* the calls of a short run *)
Definition calls : list api_call :=
  [call_zmalloc 16; call_ztryrealloc 4104 32; call_zmalloc_used_memory;
   call_zfree 4128].
End Sample.

(** * Properties *)

Section Properties.
Context {cfg : Config} {Heap : Type} {alloc : Allocator Heap}.
Local Open Scope zm_scope.

Local Abbreviation M := (M Heap).
Local Abbreviation zstate := (zstate Heap).

Implicit Types (st : zstate) (ptr size : Z) (usable : option Z).

(** ** Arithmetic on [size_t] *)

Lemma wrap_wrap x : wrap (wrap x) = wrap x.
Proof. unfold wrap. apply Zmod_mod. Qed.

Lemma wrap_add_l x y : wrap (wrap x + y) = wrap (x + y).
Proof. unfold wrap. apply Zplus_mod_idemp_l. Qed.

Lemma wrap_add_r x y : wrap (x + wrap y) = wrap (x + y).
Proof. unfold wrap. apply Zplus_mod_idemp_r. Qed.

Lemma wrap_sub_l x y : wrap (wrap x - y) = wrap (x - y).
Proof. unfold wrap. apply Zminus_mod_idemp_l. Qed.

Lemma wrap_small x : 0 <= x <= SIZE_MAX -> wrap x = x.
Proof. unfold wrap, SIZE_MAX. intros. apply Z.mod_small. lia. Qed.

Lemma prefix_size_native : HAVE_MALLOC_SIZE = true -> PREFIX_SIZE = 0.
Proof. unfold PREFIX_SIZE. by intros ->. Qed.

Lemma pow_bits_pos : wf_config -> 65536 <= 2 ^ size_t_bits.
Proof.
  intros [Hb _ _ _]. change 65536 with (2 ^ 16).
  apply Z.pow_le_mono_r; lia.
Qed.

Lemma wrap_range x : wf_config -> 0 <= wrap x <= SIZE_MAX.
Proof.
  intros Hc. pose proof (pow_bits_pos Hc). unfold wrap, SIZE_MAX.
  pose proof (Z.mod_pos_bound x (2 ^ size_t_bits)). lia.
Qed.

Lemma prefix_size_range : wf_config -> 0 <= PREFIX_SIZE <= SIZE_MAX / 2.
Proof.
  intros Hc. pose proof (pow_bits_pos Hc) as Hp. destruct Hc as [Hb _ _ _].
  assert (Hhalf : 2 ^ size_t_bits = 2 * 2 ^ (size_t_bits - 1)).
  { rewrite <- Z.pow_succ_r by lia. f_equal. lia. }
  assert (Hlin : size_t_bits - 1 < 2 ^ (size_t_bits - 1)).
  { apply Z.pow_gt_lin_r; lia. }
  assert (Hdiv : SIZE_MAX / 2 = 2 ^ (size_t_bits - 1) - 1).
  { unfold SIZE_MAX. symmetry. apply Z.div_unique with (r := 1); lia. }
  rewrite Hdiv. unfold PREFIX_SIZE, sizeof_size_t.
  destruct HAVE_MALLOC_SIZE; [lia|].
  assert (32768 <= 2 ^ (size_t_bits - 1)) by lia.
  case_match; [lia|].
  pose proof (Z.div_pos size_t_bits 8).
  assert (size_t_bits / 8 <= size_t_bits - 1) by (apply Z.div_le_upper_bound; lia).
  lia.
Qed.

Lemma half_size_max : wf_config -> 2 * (SIZE_MAX / 2) + 1 = SIZE_MAX.
Proof.
  intros Hc. pose proof (pow_bits_pos Hc) as Hp. destruct Hc as [Hb _ _ _].
  assert (Hhalf : 2 ^ size_t_bits = 2 * 2 ^ (size_t_bits - 1)).
  { rewrite <- Z.pow_succ_r by lia. f_equal. lia. }
  assert (Hdiv : SIZE_MAX / 2 = 2 ^ (size_t_bits - 1) - 1).
  { unfold SIZE_MAX. symmetry. apply Z.div_unique with (r := 1); lia. }
  rewrite Hdiv. unfold SIZE_MAX. lia.
Qed.

Lemma malloc_min_size_range size :
  wf_config -> 0 <= size < SIZE_MAX / 2 ->
  0 < MALLOC_MIN_SIZE size <= SIZE_MAX / 2 /\ size <= MALLOC_MIN_SIZE size.
Proof.
  intros Hc Hs. pose proof (pow_bits_pos Hc). pose proof (half_size_max Hc).
  destruct Hc as [_ _ Hl _]. unfold MALLOC_MIN_SIZE.
  assert (32767 <= SIZE_MAX / 2) by (unfold SIZE_MAX in *; lia).
  destruct (Z.gtb_spec size 0); lia.
Qed.

(* the size handed to the underlying allocator does not wrap *)
Lemma request_no_wrap size :
  wf_config -> 0 <= size < SIZE_MAX / 2 ->
  wrap (MALLOC_MIN_SIZE size + PREFIX_SIZE) = MALLOC_MIN_SIZE size + PREFIX_SIZE.
Proof.
  intros Hc Hs. pose proof (malloc_min_size_range size Hc Hs).
  pose proof (prefix_size_range Hc). pose proof (half_size_max Hc).
  apply wrap_small. lia.
Qed.
(** ** What the accounting updates leave alone *)

Lemma update_zmalloc_stat_alloc_frame size st (u : unit) st' :
  update_zmalloc_stat_alloc size st = Done u st' ->
  zmalloc_oom_handler st' = zmalloc_oom_handler st /\ heap st' = heap st /\
  mem st' = mem st /\ trace st' = trace st ++ [Stat_alloc size].
Proof.
  unfold update_zmalloc_stat_alloc, bind, get_thread_index, ret,
    zmalloc_register_thread_index, read_slot, write_slot.
  repeat (case_match; simplify_eq/=; try done).
  all: intros ?; by simplify_eq.
Qed.

Lemma update_zmalloc_stat_free_frame size st (u : unit) st' :
  update_zmalloc_stat_free size st = Done u st' ->
  zmalloc_oom_handler st' = zmalloc_oom_handler st /\ heap st' = heap st /\
  mem st' = mem st /\ trace st' = trace st ++ [Stat_free size].
Proof.
  unfold update_zmalloc_stat_free, bind, get_thread_index, ret,
    zmalloc_register_thread_index, read_slot, write_slot.
  repeat (case_match; simplify_eq/=; try done).
  all: intros ?; by simplify_eq.
Qed.

Lemma ztrymalloc_usable_internal_handler size usable st r st' :
  ztrymalloc_usable_internal size usable st = Done r st' ->
  zmalloc_oom_handler st' = zmalloc_oom_handler st.
Proof.
  unfold ztrymalloc_usable_internal, bind, ret, malloc, zmalloc_size,
    store_size_t.
  repeat (case_match; simplify_eq/=; try done).
  all: intros ?; simplify_eq; try done.
  all: match goal with
       | H : update_zmalloc_stat_alloc _ _ = Done _ _ |- _ =>
           by apply update_zmalloc_stat_alloc_frame in H as (-> & _)
       end.
Qed.

(** ** The overflow guard of the try forms *)

Lemma overflow_guard_internal size usable st :
  size >= SIZE_MAX / 2 ->
  ztrymalloc_usable_internal size usable st = Done (NULL, usable) st.
Proof.
  intros Hs. unfold ztrymalloc_usable_internal.
  destruct (Z.geb_spec size (SIZE_MAX / 2)); [done | lia].
Qed.

(** C1: for every size at or above [SIZE_MAX / 2], [ztrymalloc] and
    [ztrymalloc_usable] return NULL and end in the state they started in:
    the heap and the log are untouched, so the underlying allocator was
    not called and the out-of-memory handler was not invoked. *)
Theorem ztrymalloc_overflow_guard size usable st :
  size >= SIZE_MAX / 2 ->
  ztrymalloc size st = Done NULL st /\
  ztrymalloc_usable size usable st = Done (NULL, write_out usable 0) st.
Proof.
  intros Hs. unfold ztrymalloc, ztrymalloc_usable, bind.
  rewrite !overflow_guard_internal by done. simpl.
  split; [done | by destruct HAVE_MALLOC_SIZE].
Qed.

(** ** The panicking forms *)

Lemma call_oom_handler_outcome size st :
  call_oom_handler size st = oom_outcome tt size st.
Proof. done. Qed.

Lemma ztrymalloc_internal_of_null size st st' :
  ztrymalloc size st = Done NULL st' ->
  ztrymalloc_usable_internal size None st = Done (NULL, None) st'.
Proof.
  unfold ztrymalloc, bind, ret.
  destruct (ztrymalloc_usable_internal size None st) as [[p u] s| |] eqn:E;
    [|done|done].
  simpl. intros [= -> ->]. f_equal. f_equal.
  revert E. unfold ztrymalloc_usable_internal, bind, ret, malloc.
  repeat case_match; simplify_eq/=; try done.
  all: intros ?; by simplify_eq.
Qed.

(** C7: when the allocation of [size] bytes fails, [zmalloc] calls the
    handler that [zmalloc_set_oom_handler] registered, once and with
    [size] as its argument, and returns NULL if the handler returns (the
    process ends inside the handler otherwise). *)
Theorem zmalloc_failure_calls_registered_handler h size st st1 st2 :
  zmalloc_set_oom_handler h st = Done tt st1 ->
  ztrymalloc size st1 = Done NULL st2 ->
  zmalloc_oom_handler st1 = h /\
  zmalloc size st1 =
    (if handler_returns h size
     then Done NULL (emit (Call_oom h size) st2)
     else Abort (emit (Call_oom h size) st2)) /\
  trace (emit (Call_oom h size) st2) = trace st2 ++ [Call_oom h size].
Proof.
  intros [= <-] Hfail. split; [done|].
  apply ztrymalloc_internal_of_null in Hfail.
  assert (Hh : zmalloc_oom_handler st2 = h).
  { by apply ztrymalloc_usable_internal_handler in Hfail. }
  split; [|done].
  unfold zmalloc, bind. rewrite Hfail. simpl.
  rewrite call_oom_handler_outcome. unfold oom_outcome. rewrite Hh.
  by destruct (handler_returns h size).
Qed.

(** C10: [zcalloc_num] with a zero element size, or with a count whose
    product with the element size exceeds [SIZE_MAX], calls the
    out-of-memory handler with [SIZE_MAX] (not with the product) without
    asking the underlying allocator for memory, and returns NULL if the
    handler returns. *)
Theorem zcalloc_num_overflow_calls_handler num size st :
  size = 0 \/ num > SIZE_MAX / size ->
  zcalloc_num num size st =
    (if handler_returns (zmalloc_oom_handler st) SIZE_MAX
     then Done NULL (emit (Call_oom (zmalloc_oom_handler st) SIZE_MAX) st)
     else Abort (emit (Call_oom (zmalloc_oom_handler st) SIZE_MAX) st)).
Proof.
  intros Hc. unfold zcalloc_num.
  assert ((size =? 0) || (num >? SIZE_MAX / size) = true) as ->.
  { destruct Hc as [-> | Hgt]; [done|].
    apply orb_true_iff. right. by apply Z.gtb_lt, Z.gt_lt. }
  unfold bind. rewrite call_oom_handler_outcome. unfold oom_outcome.
  by destruct (handler_returns _ _).
Qed.

(** ** Release *)

(** C5: on a non-null pointer, reallocation to size 0 is [zfree] followed
    by the return of NULL, with 0 as the reported usable size: the three
    try forms end in the outcome and the state [zfree ptr] ends in. *)
Theorem ztryrealloc_zero_is_zfree ptr usable st :
  ptr <> NULL ->
  ztryrealloc_usable_internal ptr 0 usable st
    = (zfree ptr ;;; ret (NULL, write_out usable 0)) st /\
  ztryrealloc ptr 0 st = (zfree ptr ;;; ret NULL) st /\
  ztryrealloc_usable ptr 0 usable st
    = (zfree ptr ;;; ret (NULL, write_out usable 0)) st.
Proof.
  intros Hp.
  assert (Hi : forall u, ztryrealloc_usable_internal ptr 0 u st
                         = (zfree ptr ;;; ret (NULL, write_out u 0)) st).
  { intros u. unfold ztryrealloc_usable_internal.
    destruct (Z.eqb_spec ptr NULL); [done|]. done. }
  split_and!; [apply Hi | |].
  - unfold ztryrealloc, bind. rewrite Hi. unfold bind.
    by destruct (zfree ptr st).
  - unfold ztryrealloc_usable, bind. rewrite Hi. unfold bind.
    destruct (zfree ptr st); [|done|done]. simpl.
    by destruct HAVE_MALLOC_SIZE.
Qed.

(** C8: on a non-null pointer, [zfree_with_size] given the pointer's
    usable size is [zfree]: the same accounting update, the same call of
    the underlying allocator, the same final state. It goes to
    [zfree_internal] with the size computed from its argument, without
    reading the size of the block. *)
Theorem zfree_with_size_is_zfree ptr s st :
  ptr <> NULL ->
  zmalloc_usable_size ptr st = Done s st ->
  zfree_with_size ptr s st = zfree ptr st /\
  zfree_with_size ptr s st
    = zfree_internal (ptr - PREFIX_SIZE) (accounted_size s) st.
Proof.
  intros Hp. unfold zmalloc_usable_size, zmalloc_usable_size_native,
    zfree_with_size, zfree, zmalloc_size, accounted_size.
  destruct (Z.eqb_spec ptr NULL); [done|].
  destruct HAVE_MALLOC_SIZE eqn:Hn.
  - intros [= <-]. by rewrite (prefix_size_native Hn), Z.sub_0_r.
  - unfold bind, load_size_t, ret.
    destruct (mem st !! (ptr - PREFIX_SIZE)) as [v|]; [|done].
    intros [= <-]. rewrite wrap_sub_l, wrap_add_l.
    by replace (wrap v + PREFIX_SIZE - PREFIX_SIZE + PREFIX_SIZE)
      with (wrap v + PREFIX_SIZE) by lia.
Qed.

(** ** The aggregate query *)

Lemma slot_sum_app l1 l2 : slot_sum (l1 ++ l2) = slot_sum l1 + slot_sum l2.
Proof. unfold slot_sum. induction l1 as [|x l1 IH]; simpl; lia. Qed.

Lemma slot_sum_insert (l : list Z) i v x :
  l !! i = Some v -> slot_sum (<[i:=x]> l) = slot_sum l - v + x.
Proof.
  revert i. unfold slot_sum.
  induction l as [|y l IH]; intros [|i] Hl; simplify_eq/=; [lia|].
  rewrite (IH i Hl). lia.
Qed.

(* the loop adds up the slots it is run on, wrapping at every step *)
Lemma sum_slots_seq k n um st :
  (k + n <= length (used_memory_thread st))%nat ->
  sum_slots (Z.of_nat <$> seq k n) um st
  = Done (foldl (fun a v => wrap (a + v)) um
            (take n (drop k (used_memory_thread st)))) st.
Proof.
  revert k um. induction n as [|n IH]; intros k um Hlen; simpl.
  { done. }
  unfold bind, read_slot.
  destruct (Z.leb_spec 0 (Z.of_nat k)); [|lia].
  rewrite Nat2Z.id.
  destruct (used_memory_thread st !! k) as [v|] eqn:Hk.
  2: { apply lookup_ge_None in Hk. lia. }
  rewrite IH by lia.
  rewrite (drop_S _ _ _ Hk). simpl. done.
Qed.

Lemma foldl_wrap um vs :
  wrap um = um ->
  foldl (fun a v => wrap (a + v)) um vs = wrap (um + slot_sum vs).
Proof.
  revert um. induction vs as [|v vs IH]; intros um Hum; simpl.
  { by rewrite Z.add_0_r. }
  rewrite IH by apply wrap_wrap. rewrite wrap_add_l. f_equal.
  unfold slot_sum. simpl. lia.
Qed.

Lemma used_memory_threads_num_min st :
  used_memory_threads_num st = Z.min (total_active_threads st) MAX_THREADS_NUM.
Proof.
  unfold used_memory_threads_num.
  destruct (Z.gtb_spec (total_active_threads st) MAX_THREADS_NUM); lia.
Qed.

Lemma seqZ_0_of_nat len : seqZ 0 len = Z.of_nat <$> seq 0 (Z.to_nat len).
Proof. unfold seqZ. apply list_fmap_ext. intros; lia. Qed.

Lemma zmalloc_used_memory_value st :
  Z.of_nat (length (used_memory_thread st)) = MAX_THREADS_NUM ->
  zmalloc_used_memory st = Done (used_memory_value st) st.
Proof.
  intros Hlen. unfold zmalloc_used_memory, used_memory_indices, used_memory_value.
  rewrite seqZ_0_of_nat, used_memory_threads_num_min.
  rewrite sum_slots_seq by lia. rewrite drop_0. f_equal.
  rewrite foldl_wrap; [|by case_match; rewrite ?wrap_wrap].
  case_match; [|done]. by rewrite wrap_add_l.
Qed.

(** C6: the aggregate query runs its loop on the indices
    0 .. min(total_active_threads, MAX_THREADS_NUM) - 1, all of them inside
    the table, and returns their sum, to which the overflow counter is
    added exactly when more than MAX_THREADS_NUM threads have registered. *)
Theorem zmalloc_used_memory_reads_inside_table st :
  Z.of_nat (length (used_memory_thread st)) = MAX_THREADS_NUM ->
  let n := Z.min (total_active_threads st) MAX_THREADS_NUM in
  used_memory_indices st = seqZ 0 n /\
  length (used_memory_indices st) = Z.to_nat n /\
  Forall (fun i => 0 <= i < MAX_THREADS_NUM) (used_memory_indices st) /\
  zmalloc_used_memory st =
    Done (wrap ((if total_active_threads st >? MAX_THREADS_NUM
                 then used_memory_for_additional_threads st else 0)
                + slot_sum (take (Z.to_nat n) (used_memory_thread st)))) st.
Proof.
  intros Hlen n.
  assert (Hidx : used_memory_indices st = seqZ 0 n).
  { unfold used_memory_indices. by rewrite used_memory_threads_num_min. }
  split_and!; [done | | |].
  - rewrite Hidx. apply length_seqZ.
  - rewrite Hidx. apply Forall_forall. intros i Hi.
    apply elem_of_seqZ in Hi. lia.
  - by rewrite zmalloc_used_memory_value.
Qed.

(** ** The accounting updates *)

Lemma wf_state_same st st' : same_accounting st st' -> wf_state st -> wf_state st'.
Proof.
  intros (Hi & Ht & Hn & Ha) [].
  split; rewrite ?Hi, ?Ht, ?Hn, ?Ha; done.
Qed.

Lemma used_memory_value_same st st' :
  same_accounting st st' -> used_memory_value st' = used_memory_value st.
Proof. intros (Hi & Ht & Hn & Ha). unfold used_memory_value. by rewrite Ht, Hn, Ha. Qed.

Lemma update_zmalloc_stat_alloc_account size st :
  update_zmalloc_stat_alloc size st = account size (emit (Stat_alloc size) st).
Proof. done. Qed.

Lemma update_zmalloc_stat_free_account size st :
  update_zmalloc_stat_free size st = account (- size) (emit (Stat_free size) st).
Proof. done. Qed.

Lemma wrap_int_small x : 0 <= x <= INT_MAX -> wrap_int x = x.
Proof.
  unfold wrap_int, INT_MAX. intros. rewrite Z.mod_small; lia.
Qed.

Lemma max_threads_range : wf_config -> 4 <= MAX_THREADS_NUM < INT_MAX.
Proof. intros [_ _ _ Ht]. unfold MAX_THREADS_NUM. lia. Qed.

Lemma account_spec delta st :
  wf_config -> wf_state st ->
  exists st',
    account delta st = Done tt st' /\ wf_state st' /\
    used_memory_value st' = wrap (used_memory_value st + delta) /\
    zmalloc_oom_handler st' = zmalloc_oom_handler st /\ heap st' = heap st /\
    mem st' = mem st /\ trace st' = trace st.
Proof.
  intros Hc [Htab Hsl Hadd Htot Hidx Hus Hua].
  pose proof (max_threads_range Hc) as Hmax.
  unfold account, bind, get_thread_index, ret, zmalloc_register_thread_index.
  destruct Hidx as [[Hi Hlt] | Hi].
  - (* the thread registers: its index is the old thread count *)
    rewrite Hi. simpl. rewrite wrap_int_small by lia.
    destruct (Z.geb_spec (total_active_threads st) MAX_THREADS_NUM) as [Hge|Hlt'].
    + eexists. split; [done|]. split_and!; try done.
      * split; simpl; try done; try lia.
        -- by apply wrap_range.
        -- intros i v Hle. apply Hus. lia.
      * unfold used_memory_value. simpl.
        destruct (Z.gtb_spec (total_active_threads st + 1) MAX_THREADS_NUM); [|lia].
        rewrite !Z.min_r by lia.
        destruct (Z.gtb_spec (total_active_threads st) MAX_THREADS_NUM).
        -- rewrite !wrap_add_l. f_equal. lia.
        -- rewrite Hua by lia. rewrite !wrap_add_l. f_equal. lia.
    + unfold read_slot, write_slot. simpl.
      destruct (Z.leb_spec 0 (total_active_threads st)); [|lia].
      destruct (used_memory_thread st !! Z.to_nat (total_active_threads st))
        as [v|] eqn:Hv.
      2: { apply lookup_ge_None in Hv. lia. }
      assert (v = 0) as -> by (eapply Hus; [|exact Hv]; lia).
      simpl. destruct (Z.ltb_spec (total_active_threads st)
                         (Z.of_nat (length (used_memory_thread st)))); [|lia].
      simpl. eexists. split; [done|]. split_and!; try done.
      * split; simpl; try done; try lia.
        -- by rewrite length_insert.
        -- intros i w Hw. destruct (decide (i = Z.to_nat (total_active_threads st))) as [->|Hne].
           ++ rewrite list_lookup_insert_eq in Hw by lia.
              simplify_eq. by apply wrap_range.
           ++ rewrite list_lookup_insert_ne in Hw by done. by eapply Hsl.
        -- intros i w Hle Hw. rewrite list_lookup_insert_ne in Hw by lia.
           eapply Hus; [|done]. lia.
      * unfold used_memory_value. simpl.
        destruct (Z.gtb_spec (total_active_threads st + 1) MAX_THREADS_NUM); [lia|].
        destruct (Z.gtb_spec (total_active_threads st) MAX_THREADS_NUM); [lia|].
        rewrite Z.min_l by lia. rewrite Z.min_l by lia.
        replace (Z.to_nat (total_active_threads st + 1))
          with (S (Z.to_nat (total_active_threads st))) by lia.
        erewrite take_S_r; [|apply list_lookup_insert_eq; lia].
        rewrite take_insert_ge by lia. rewrite slot_sum_app.
        unfold slot_sum at 2. simpl.
        rewrite wrap_add_l, !Z.add_0_l, Z.add_0_r. apply wrap_add_r.
  - (* the thread is registered *)
    destruct (Z.eqb_spec (thread_index st) (-1)); [lia|]. simpl.
    destruct (Z.geb_spec (thread_index st) MAX_THREADS_NUM) as [Hge|Hlt'].
    + eexists. split; [done|]. split_and!; try done.
      * split; simpl; try done; try lia. by apply wrap_range.
      * unfold used_memory_value. simpl.
        destruct (Z.gtb_spec (total_active_threads st) MAX_THREADS_NUM); [|lia].
        rewrite !wrap_add_l. f_equal. lia.
    + unfold read_slot, write_slot. 
      destruct (Z.leb_spec 0 (thread_index st)); [|lia].
      destruct (used_memory_thread st !! Z.to_nat (thread_index st))
        as [v|] eqn:Hv.
      2: { apply lookup_ge_None in Hv. lia. }
      simpl. destruct (Z.ltb_spec (thread_index st)
                         (Z.of_nat (length (used_memory_thread st)))); [|lia].
      simpl. eexists. split; [done|]. split_and!; try done.
      * split; simpl; try done; try lia.
        -- by rewrite length_insert.
        -- intros i w Hw. destruct (decide (i = Z.to_nat (thread_index st))) as [->|Hne].
           ++ rewrite list_lookup_insert_eq in Hw by lia.
              simplify_eq. by apply wrap_range.
           ++ rewrite list_lookup_insert_ne in Hw by done. by eapply Hsl.
        -- intros i w Hle Hw. rewrite list_lookup_insert_ne in Hw by lia.
           by eapply Hus.
      * unfold used_memory_value. simpl.
        rewrite take_insert_lt by lia.
        erewrite slot_sum_insert; [|rewrite lookup_take_lt by lia; exact Hv].
        rewrite wrap_add_l.
        match goal with
        | |- wrap (?c + (?s - v + wrap (v + delta))) = _ =>
            replace (c + (s - v + wrap (v + delta)))
              with ((c + s - v) + wrap (v + delta)) by lia
        end.
        rewrite wrap_add_r. f_equal. lia.
Qed.

Lemma wf_state_emit e st : wf_state st -> wf_state (emit e st).
Proof. by apply wf_state_same. Qed.

Lemma update_zmalloc_stat_alloc_spec size st :
  wf_config -> wf_state st ->
  exists st',
    update_zmalloc_stat_alloc size st = Done tt st' /\ wf_state st' /\
    used_memory_value st' = wrap (used_memory_value st + size) /\
    zmalloc_oom_handler st' = zmalloc_oom_handler st /\ heap st' = heap st /\
    mem st' = mem st /\ trace st' = trace st ++ [Stat_alloc size].
Proof.
  intros Hc Hwf. rewrite update_zmalloc_stat_alloc_account.
  destruct (account_spec size (emit (Stat_alloc size) st) Hc)
    as (st' & Hrun & Hwf' & Hval & Hh & Hheap & Hmem & Htr).
  { by apply wf_state_emit. }
  exists st'. split_and!; try done.
Qed.

Lemma update_zmalloc_stat_free_spec size st :
  wf_config -> wf_state st ->
  exists st',
    update_zmalloc_stat_free size st = Done tt st' /\ wf_state st' /\
    used_memory_value st' = wrap (used_memory_value st - size) /\
    zmalloc_oom_handler st' = zmalloc_oom_handler st /\ heap st' = heap st /\
    mem st' = mem st /\ trace st' = trace st ++ [Stat_free size].
Proof.
  intros Hc Hwf. rewrite update_zmalloc_stat_free_account.
  destruct (account_spec (- size) (emit (Stat_free size) st) Hc)
    as (st' & Hrun & Hwf' & Hval & Hh & Hheap & Hmem & Htr).
  { by apply wf_state_emit. }
  exists st'. split_and!; try done.
Qed.

Lemma used_memory_value_range st : wf_config -> wrap (used_memory_value st) = used_memory_value st.
Proof. intros _. unfold used_memory_value. apply wrap_wrap. Qed.

(** ** What a successful allocation does *)

Lemma ztrymalloc_usable_internal_success size usable st :
  wf_config -> wf_state st ->
  0 <= size < SIZE_MAX / 2 ->
  let req := MALLOC_MIN_SIZE size + PREFIX_SIZE in
  let r := sys_malloc req (heap st) in
  r.1 <> NULL ->
  exists st',
    ztrymalloc_usable_internal size usable st
      = Done (r.1 + PREFIX_SIZE, write_out usable (usable_of size r.1 r.2)) st' /\
    wf_state st' /\
    used_memory_value st' = wrap (used_memory_value st + accounted_of size r.1 r.2) /\
    zmalloc_oom_handler st' = zmalloc_oom_handler st /\
    heap st' = r.2 /\
    mem st' = (if HAVE_MALLOC_SIZE then mem st
               else <[r.1 := MALLOC_MIN_SIZE size]> (mem st)) /\
    trace st' = trace st ++ [Call_malloc req; Stat_alloc (accounted_of size r.1 r.2)].
Proof.
  intros Hc Hwf Hs req r Hok.
  unfold ztrymalloc_usable_internal, usable_of, accounted_of.
  destruct (Z.geb_spec size (SIZE_MAX / 2)); [lia|].
  rewrite request_no_wrap by done. fold req.
  unfold bind at 1. unfold malloc at 1. fold r. simpl.
  destruct (Z.eqb_spec r.1 NULL); [done|].
  set (stm := emit (Call_malloc req) (set_heap r.2 st)).
  assert (Hwfm : wf_state stm) by (by apply (wf_state_same st)).
  destruct HAVE_MALLOC_SIZE eqn:Hn.
  - rewrite (prefix_size_native Hn), Z.add_0_r.
    unfold bind, zmalloc_size. rewrite Hn. simpl.
    destruct (update_zmalloc_stat_alloc_spec (sys_malloc_size r.1 r.2) stm Hc Hwfm)
      as (st' & -> & Hwf' & Hval & Hh & Hheap & Hmem & Htr).
    exists st'. split_and!; try done.
    rewrite Htr. simpl. by rewrite <- app_assoc.
  - unfold bind, store_size_t.
    set (sts := set_mem _ stm).
    assert (Hwfs : wf_state sts) by (by apply (wf_state_same stm)).
    destruct (update_zmalloc_stat_alloc_spec req sts Hc Hwfs)
      as (st' & -> & Hwf' & Hval & Hh & Hheap & Hmem & Htr).
    exists st'. split_and!; try done.
    rewrite Htr. simpl. by rewrite <- app_assoc.
Qed.

(** ** What a release does *)

Lemma zfree_internal_spec p sz st :
  wf_config -> wf_state st -> p <> NULL ->
  exists st',
    zfree_internal p sz st = Done tt st' /\ wf_state st' /\
    used_memory_value st' = wrap (used_memory_value st - sz) /\
    zmalloc_oom_handler st' = zmalloc_oom_handler st /\
    heap st' = release_heap p sz (heap st) /\
    mem st' = delete p (mem st) /\
    trace st' = trace st ++ [Stat_free sz; release_event p sz].
Proof.
  intros Hc Hwf Hp. unfold zfree_internal.
  destruct (Z.eqb_spec p NULL); [done|]. unfold bind.
  destruct (update_zmalloc_stat_free_spec sz st Hc Hwf)
    as (stf & -> & Hwf' & Hval & Hh & Hheap & Hmem & Htr).
  unfold release_heap, release_event, je_sdallocx, free.
  destruct USE_JEMALLOC; eexists; (split; [done|]).
  all: split_and!; simpl; rewrite ?Hheap, ?Hmem, ?Htr, <- ?app_assoc; try done.
  all: by apply (wf_state_same stf).
Qed.

Lemma zfree_spec ptr sz st :
  wf_config -> wf_state st ->
  ptr <> NULL -> ptr - PREFIX_SIZE <> NULL ->
  zmalloc_size ptr st = Done sz st ->
  let p := ptr - PREFIX_SIZE in
  exists st',
    zfree ptr st = Done tt st' /\ wf_state st' /\
    used_memory_value st' = wrap (used_memory_value st - sz) /\
    zmalloc_oom_handler st' = zmalloc_oom_handler st /\
    heap st' = release_heap p sz (heap st) /\
    mem st' = delete p (mem st) /\
    trace st' = trace st ++ [Stat_free sz; release_event p sz].
Proof.
  intros Hc Hwf Hp Hreal Hsz p. unfold zfree.
  destruct (Z.eqb_spec ptr NULL); [done|].
  revert Hsz. unfold zmalloc_size. subst p.
  destruct HAVE_MALLOC_SIZE eqn:Hn.
  - rewrite (prefix_size_native Hn), Z.sub_0_r in *.
    intros [= <-]. unfold bind. by apply zfree_internal_spec.
  - unfold bind, load_size_t, ret.
    destruct (mem st !! (ptr - PREFIX_SIZE)) as [v|]; [|done].
    intros [= <-]. by apply zfree_internal_spec.
Qed.

(* the sizes the wrapper reports for the block it has just allocated *)
Lemma sizes_of_new_block size p h st :
  wf_config -> 0 <= size < SIZE_MAX / 2 ->
  heap st = h ->
  (HAVE_MALLOC_SIZE = false -> mem st !! p = Some (MALLOC_MIN_SIZE size)) ->
  zmalloc_size (p + PREFIX_SIZE) st = Done (accounted_of size p h) st /\
  zmalloc_usable_size (p + PREFIX_SIZE) st = Done (usable_of size p h) st.
Proof.
  intros Hc Hs Hh Hm.
  unfold zmalloc_usable_size, zmalloc_usable_size_native, zmalloc_size,
    accounted_of, usable_of.
  destruct HAVE_MALLOC_SIZE eqn:Hn.
  - rewrite (prefix_size_native Hn), Z.add_0_r, Hh. done.
  - unfold bind, load_size_t, ret.
    replace (p + PREFIX_SIZE - PREFIX_SIZE) with p by lia.
    rewrite (Hm eq_refl).
    pose proof (malloc_min_size_range size Hc Hs).
    pose proof (half_size_max Hc).
    rewrite (wrap_small (MALLOC_MIN_SIZE size)) by lia.
    split; [done|].
    rewrite wrap_sub_l. f_equal.
    replace (MALLOC_MIN_SIZE size + PREFIX_SIZE - PREFIX_SIZE)
      with (MALLOC_MIN_SIZE size) by lia.
    apply wrap_small. lia.
Qed.

Lemma usable_of_ge size st :
  allocator_laws alloc ->
  wf_config -> 0 <= size < SIZE_MAX / 2 ->
  let r := sys_malloc (MALLOC_MIN_SIZE size + PREFIX_SIZE) (heap st) in
  r.1 <> NULL -> size <= usable_of size r.1 r.2.
Proof.
  intros Hl Hc Hs r Hok. pose proof (malloc_min_size_range size Hc Hs) as [_ Hge].
  unfold usable_of. destruct HAVE_MALLOC_SIZE eqn:Hn; [|done].
  pose proof (sys_malloc_size_ge _ Hl _ _ Hok) as Hsz. fold r in Hsz.
  rewrite (prefix_size_native Hn) in Hsz. lia.
Qed.

(** C2: for a size below the overflow threshold on which the underlying
    allocator succeeds, [ztrymalloc] returns a non-null pointer whose
    usable size is at least the requested size, and [zfree] of that pointer
    brings [zmalloc_used_memory] back to the value it had before the
    allocation. *)
Theorem ztrymalloc_zfree_restores_used_memory size st :
  allocator_laws alloc ->
  wf_config -> wf_state st ->
  0 <= size < SIZE_MAX / 2 ->
  (sys_malloc (MALLOC_MIN_SIZE size + PREFIX_SIZE) (heap st)).1 <> NULL ->
  exists ptr st1 u st2 um,
    zmalloc_used_memory st = Done um st /\
    ztrymalloc size st = Done ptr st1 /\ ptr <> NULL /\
    zmalloc_usable_size ptr st1 = Done u st1 /\ size <= u /\
    zfree ptr st1 = Done tt st2 /\
    zmalloc_used_memory st2 = Done um st2.
Proof.
  intros Hl Hc Hwf Hs Hok.
  set (r := sys_malloc (MALLOC_MIN_SIZE size + PREFIX_SIZE) (heap st)) in *.
  destruct (ztrymalloc_usable_internal_success size None st Hc Hwf Hs Hok)
    as (st1 & Hrun & Hwf1 & Hval1 & _ & Hheap1 & Hmem1 & _).
  fold r in Hrun, Hval1, Hheap1, Hmem1.
  pose proof (prefix_size_range Hc) as Hpre.
  pose proof (sys_malloc_nonneg _ Hl (MALLOC_MIN_SIZE size + PREFIX_SIZE) (heap st)) as Hnn.
  fold r in Hnn.
  assert (Hptr : r.1 + PREFIX_SIZE <> NULL) by (unfold NULL in *; lia).
  destruct (sizes_of_new_block size r.1 r.2 st1 Hc Hs Hheap1) as [Hsz Husable].
  { intros Hn. rewrite Hmem1, Hn. apply lookup_insert_eq. }
  assert (Hreal : r.1 + PREFIX_SIZE - PREFIX_SIZE <> NULL).
  { by replace (r.1 + PREFIX_SIZE - PREFIX_SIZE) with r.1 by lia. }
  destruct (zfree_spec (r.1 + PREFIX_SIZE) _ st1 Hc Hwf1 Hptr Hreal Hsz)
    as (st2 & Hfree & Hwf2 & Hval2 & _).
  exists (r.1 + PREFIX_SIZE), st1, (usable_of size r.1 r.2), st2, (used_memory_value st).
  split_and!; try done.
  - apply zmalloc_used_memory_value, Hwf.
  - unfold ztrymalloc, bind. by rewrite Hrun.
  - by apply usable_of_ge.
  - rewrite zmalloc_used_memory_value by apply Hwf2. f_equal.
    rewrite Hval2, Hval1, wrap_sub_l.
    replace (used_memory_value st + accounted_of size r.1 r.2 - accounted_of size r.1 r.2)
      with (used_memory_value st) by lia.
    by apply used_memory_value_range.
Qed.

(** ** Requests below the minimum allocation unit *)

(** C4 (as amended): a request of 0 bytes is the only one the code rounds:
    when the underlying allocator succeeds, [ztrymalloc] and [zmalloc]
    return a non-null pointer after asking the allocator for
    [sizeof(long)] bytes (plus the header), and on a header build
    [zmalloc_usable_size] of that pointer is exactly [sizeof(long)]; a
    request of [0 < size < sizeof(long)] bytes is passed on as it is, and
    its usable size on a header build is the raw [size]. *)
Theorem small_request_rounding size st :
  allocator_laws alloc -> wf_config -> wf_state st ->
  0 <= size < sizeof_long ->
  let rounded := if size =? 0 then sizeof_long else size in
  (sys_malloc (rounded + PREFIX_SIZE) (heap st)).1 <> NULL ->
  exists ptr st',
    ztrymalloc size st = Done ptr st' /\
    zmalloc size st = Done ptr st' /\
    ptr <> NULL /\
    MALLOC_MIN_SIZE size = rounded /\
    (exists acc, trace st' = trace st
                   ++ [Call_malloc (rounded + PREFIX_SIZE); Stat_alloc acc]) /\
    (HAVE_MALLOC_SIZE = false ->
     zmalloc_usable_size ptr st' = Done rounded st').
Proof.
  intros Hl Hc Hwf Hs rounded Hok.
  assert (Hround : MALLOC_MIN_SIZE size = rounded).
  { unfold MALLOC_MIN_SIZE, rounded.
    destruct (Z.gtb_spec size 0), (Z.eqb_spec size 0); lia. }
  pose proof (pow_bits_pos Hc) as Hpow. pose proof (half_size_max Hc) as Hhalf.
  assert (Hlong : 0 < sizeof_long <= 8) by apply Hc.
  assert (Hs' : 0 <= size < SIZE_MAX / 2) by (unfold SIZE_MAX in *; lia).
  rewrite <- Hround in Hok.
  set (r := sys_malloc (MALLOC_MIN_SIZE size + PREFIX_SIZE) (heap st)) in *.
  destruct (ztrymalloc_usable_internal_success size None st Hc Hwf Hs' Hok)
    as (st' & Hrun & Hwf' & _ & _ & Hheap & Hmem & Htr).
  fold r in Hrun, Hheap, Hmem, Htr.
  pose proof (prefix_size_range Hc) as Hpre.
  pose proof (sys_malloc_nonneg _ Hl (MALLOC_MIN_SIZE size + PREFIX_SIZE) (heap st)) as Hnn.
  fold r in Hnn.
  assert (Hptr : r.1 + PREFIX_SIZE <> NULL) by (unfold NULL in *; lia).
  exists (r.1 + PREFIX_SIZE), st'. split_and!; try done.
  - unfold ztrymalloc, bind. by rewrite Hrun.
  - unfold zmalloc, bind. rewrite Hrun. simpl.
    by destruct (Z.eqb_spec (r.1 + PREFIX_SIZE) NULL).
  - eexists. rewrite Htr, Hround. done.
  - intros Hn.
    destruct (sizes_of_new_block size r.1 r.2 st' Hc Hs' Hheap) as [_ Hu].
    { intros _. rewrite Hmem, Hn. apply lookup_insert_eq. }
    rewrite Hu. unfold usable_of. by rewrite Hn, Hround.
Qed.

(** ** Reallocation *)

Lemma set_heap_id st : set_heap (heap st) st = st.
Proof. by destruct st. Qed.

Lemma set_mem_id st : set_mem (mem st) st = st.
Proof. by destruct st. Qed.

Lemma zmalloc_size_of_usable ptr u st :
  zmalloc_usable_size ptr st = Done u st ->
  zmalloc_size ptr st = Done (accounted_size u) st.
Proof.
  unfold zmalloc_usable_size, zmalloc_usable_size_native, accounted_size.
  destruct HAVE_MALLOC_SIZE eqn:Hn; [done|].
  unfold zmalloc_size. rewrite Hn. unfold bind, load_size_t, ret.
  destruct (mem st !! (ptr - PREFIX_SIZE)) as [v|]; [|done].
  intros [= <-]. f_equal. rewrite wrap_sub_l.
  replace (wrap v + PREFIX_SIZE - PREFIX_SIZE) with (wrap v) by lia.
  by rewrite wrap_wrap.
Qed.

(* the old size, as the code reads it before it calls realloc *)
Lemma old_size_of_usable ptr u st :
  zmalloc_usable_size ptr st = Done u st ->
  (if HAVE_MALLOC_SIZE then zmalloc_size ptr st
   else load_size_t (ptr - PREFIX_SIZE) st) = Done u st.
Proof.
  unfold zmalloc_usable_size, zmalloc_usable_size_native.
  destruct HAVE_MALLOC_SIZE eqn:Hn; [done|].
  unfold zmalloc_size. rewrite Hn. unfold bind, load_size_t, ret.
  destruct (mem st !! (ptr - PREFIX_SIZE)) as [v|]; [|done].
  intros [= <-]. f_equal. rewrite wrap_sub_l.
  replace (wrap v + PREFIX_SIZE - PREFIX_SIZE) with (wrap v) by lia.
  by rewrite wrap_wrap.
Qed.

(** C3 (as amended): for a non-null pointer and [0 < size < SIZE_MAX / 2],
    when the underlying realloc succeeds, the old usable size is read
    before realloc is called, and both accounting updates follow the call:
    first the old usable size is removed, then the new one is added.
    The aggregate changes by the new size minus the old one. *)
Theorem ztryrealloc_accounting ptr size usable old st :
  wf_config -> wf_state st ->
  ptr <> NULL -> 0 < size < SIZE_MAX / 2 ->
  zmalloc_usable_size ptr st = Done old st ->
  let realptr := ptr - PREFIX_SIZE in
  let req := size + PREFIX_SIZE in
  (sys_realloc realptr req (heap st)).1 <> NULL ->
  exists newptr new st_r st' um,
    ztryrealloc_usable_internal ptr size usable st
      = Done (newptr, write_out usable new) st' /\
    (* the state after the call of realloc: the accounting is as it was *)
    same_accounting st st_r /\
    trace st_r = trace st ++ [Call_realloc realptr req] /\
    (* the two updates, run from there *)
    (update_zmalloc_stat_free old ;;; update_zmalloc_stat_alloc new) st_r
      = Done tt st' /\
    trace st' = trace st ++ [Call_realloc realptr req; Stat_free old; Stat_alloc new] /\
    zmalloc_usable_size newptr st' = Done new st' /\
    zmalloc_used_memory st = Done um st /\
    zmalloc_used_memory st' = Done (wrap (um - old + new)) st'.
Proof.
  intros Hc Hwf Hp Hs Hold realptr req Hok.
  pose proof (prefix_size_range Hc) as Hpre.
  pose proof (half_size_max Hc) as Hhalf.
  assert (Hreq : wrap (size + PREFIX_SIZE) = req) by (apply wrap_small; lia).
  apply old_size_of_usable in Hold.
  unfold ztryrealloc_usable_internal.
  destruct (Z.eqb_spec size 0); [lia|]. simpl.
  destruct (Z.eqb_spec ptr NULL); [done|].
  destruct (Z.geb_spec size (SIZE_MAX / 2)); [lia|].
  set (r := sys_realloc realptr req (heap st)) in *.
  destruct HAVE_MALLOC_SIZE eqn:Hn.
  - (* the allocator reports sizes *)
    assert (Hreal : realptr = ptr).
    { unfold realptr. rewrite (prefix_size_native Hn). lia. }
    assert (Hreq' : req = size).
    { unfold req. rewrite (prefix_size_native Hn). lia. }
    unfold bind at 1. rewrite Hold.
    unfold bind at 1. unfold realloc at 1.
    rewrite <- Hreal, <- Hreq'. fold r. simpl.
    destruct (Z.eqb_spec r.1 NULL); [done|].
    set (str := emit (Call_realloc realptr req) _).
    assert (Hwfr : wf_state str) by (by apply (wf_state_same st)).
    unfold bind at 1.
    destruct (update_zmalloc_stat_free_spec old str Hc Hwfr)
      as (stf & Hrunf & Hwff & Hvalf & _ & Hheapf & _ & Htrf).
    rewrite Hrunf.
    unfold bind at 1. unfold zmalloc_size at 1. rewrite Hn.
    unfold bind at 1.
    destruct (update_zmalloc_stat_alloc_spec (sys_malloc_size r.1 (heap stf)) stf Hc Hwff)
      as (st' & Hruna & Hwf' & Hval' & _ & Hheap' & _ & Htr').
    rewrite Hruna.
    exists r.1, (sys_malloc_size r.1 (heap stf)), str, st', (used_memory_value st).
    split_and!; try done.
    + unfold bind. by rewrite Hrunf.
    + rewrite Htr', Htrf. simpl. by rewrite <- !app_assoc.
    + unfold zmalloc_usable_size, zmalloc_usable_size_native, zmalloc_size.
      by rewrite Hn, Hheap'.
    + apply zmalloc_used_memory_value, Hwf.
    + rewrite zmalloc_used_memory_value by apply Hwf'. f_equal.
      rewrite Hval', Hvalf, wrap_add_l. f_equal.
  - (* the size is in the header *)
    unfold bind at 1. fold realptr. fold realptr in Hold. rewrite Hold.
    unfold bind at 1. unfold realloc at 1. rewrite Hreq. fold r. simpl.
    destruct (Z.eqb_spec r.1 NULL); [done|].
    set (str := emit (Call_realloc realptr req) _).
    assert (Hwfr : wf_state str) by (by apply (wf_state_same st)).
    unfold bind at 1. unfold store_size_t at 1.
    set (sts := set_mem _ str).
    assert (Hwfs : wf_state sts) by (by apply (wf_state_same str)).
    unfold bind at 1.
    destruct (update_zmalloc_stat_free_spec old sts Hc Hwfs)
      as (stf & Hrunf & Hwff & Hvalf & _ & _ & Hmemf & Htrf).
    rewrite Hrunf.
    unfold bind at 1.
    destruct (update_zmalloc_stat_alloc_spec size stf Hc Hwff)
      as (st' & Hruna & Hwf' & Hval' & _ & _ & Hmem' & Htr').
    rewrite Hruna.
    exists (r.1 + PREFIX_SIZE), size, sts, st', (used_memory_value st).
    split_and!; try done.
    + unfold bind. by rewrite Hrunf.
    + rewrite Htr', Htrf. simpl. by rewrite <- !app_assoc.
    + unfold zmalloc_usable_size, zmalloc_size. rewrite Hn.
      unfold bind, load_size_t, ret.
      replace (r.1 + PREFIX_SIZE - PREFIX_SIZE) with r.1 by lia.
      rewrite Hmem', Hmemf. simpl. rewrite lookup_insert_eq.
      f_equal. rewrite wrap_sub_l.
      replace (wrap size + PREFIX_SIZE - PREFIX_SIZE) with (wrap size) by lia.
      rewrite wrap_wrap. apply wrap_small. lia.
    + apply zmalloc_used_memory_value, Hwf.
    + rewrite zmalloc_used_memory_value by apply Hwf'. f_equal.
      rewrite Hval', Hvalf, wrap_add_l. f_equal.
Qed.

(** C9 (as amended): on a non-null pointer, reallocation to a size at or
    above [SIZE_MAX / 2] releases the block as [zfree] does before it
    returns NULL: the accounting goes down by the number of bytes the block
    is accounted for (its usable size, plus the size header on a header
    build) and the block is given back to the underlying allocator. When
    instead the underlying realloc fails, nothing but the log changes: the
    block is still allocated and the accounting is as it was. *)
Theorem ztryrealloc_overflow_guard_frees ptr size u st :
  allocator_laws alloc -> wf_config -> wf_state st ->
  ptr <> NULL -> ptr - PREFIX_SIZE <> NULL ->
  zmalloc_usable_size ptr st = Done u st ->
  let realptr := ptr - PREFIX_SIZE in
  (size >= SIZE_MAX / 2 ->
   exists st' um,
     ztryrealloc ptr size st = Done NULL st' /\
     trace st' = trace st ++ [Stat_free (accounted_size u);
                              release_event realptr (accounted_size u)] /\
     heap st' = release_heap realptr (accounted_size u) (heap st) /\
     zmalloc_used_memory st = Done um st /\
     zmalloc_used_memory st' = Done (wrap (um - accounted_size u)) st') /\
  (0 < size < SIZE_MAX / 2 ->
   (sys_realloc realptr (size + PREFIX_SIZE) (heap st)).1 = NULL ->
   ztryrealloc ptr size st
     = Done NULL (emit (Call_realloc realptr (size + PREFIX_SIZE)) st)).
Proof.
  intros Hl Hc Hwf Hp Hreal Hu realptr.
  pose proof (prefix_size_range Hc) as Hpre.
  pose proof (half_size_max Hc) as Hhalf.
  pose proof (pow_bits_pos Hc) as Hpow.
  assert (Hbig : 32767 <= SIZE_MAX / 2) by (unfold SIZE_MAX in *; lia).
  unfold ztryrealloc, ztryrealloc_usable_internal.
  destruct (Z.eqb_spec ptr NULL); [done|]. split.
  - intros Hs. destruct (Z.eqb_spec size 0); [lia|]. simpl.
    destruct (Z.geb_spec size (SIZE_MAX / 2)); [|lia].
    destruct (zfree_spec ptr _ st Hc Hwf Hp Hreal (zmalloc_size_of_usable _ _ _ Hu))
      as (st' & Hfree & Hwf' & Hval & _ & Hheap & _ & Htr).
    exists st', (used_memory_value st). split_and!; try done.
    + unfold bind. by rewrite Hfree.
    + apply zmalloc_used_memory_value, Hwf.
    + rewrite zmalloc_used_memory_value by apply Hwf'. by rewrite Hval.
  - intros Hs Hfail. destruct (Z.eqb_spec size 0); [lia|]. simpl.
    destruct (Z.geb_spec size (SIZE_MAX / 2)); [lia|].
    assert (Hreq : wrap (size + PREFIX_SIZE) = size + PREFIX_SIZE)
      by (apply wrap_small; lia).
    assert (Hpos : 0 < size + PREFIX_SIZE) by lia.
    pose proof (sys_realloc_fail _ Hl realptr (size + PREFIX_SIZE) (heap st)
                  Hpos Hfail) as Hsame.
    apply old_size_of_usable in Hu.
    destruct HAVE_MALLOC_SIZE eqn:Hn.
    + assert (Hr : realptr = ptr).
      { unfold realptr. rewrite (prefix_size_native Hn). lia. }
      assert (Hq : size + PREFIX_SIZE = size).
      { rewrite (prefix_size_native Hn). lia. }
      rewrite Hr, Hq in *.
      unfold bind. rewrite Hu. unfold realloc. rewrite Hfail, Hsame. simpl.
      by rewrite set_heap_id, set_mem_id.
    + fold realptr in Hu |- *.
      unfold bind. rewrite Hu. unfold realloc. rewrite Hreq, Hfail, Hsame. simpl.
      by rewrite set_heap_id, set_mem_id.
Qed.

(** ** The first state *)

Lemma initial_state_wf (h : Heap) : wf_config -> wf_state (initial_state h).
Proof.
  intros Hc. pose proof (max_threads_range Hc).
  pose proof (pow_bits_pos Hc).
  split; simpl.
  - rewrite length_replicate. lia.
  - intros i v Hv. apply lookup_replicate in Hv as [-> _]. unfold SIZE_MAX. lia.
  - unfold SIZE_MAX. lia.
  - unfold INT_MAX. lia.
  - left. unfold INT_MAX. lia.
  - intros i v _ Hv. by apply lookup_replicate in Hv as [-> _].
  - done.
Qed.

(* a successful allocation keeps the invariant *)
Lemma ztrymalloc_final_state_wf size st :
  wf_config -> wf_state st ->
  0 <= size < SIZE_MAX / 2 ->
  (sys_malloc (MALLOC_MIN_SIZE size + PREFIX_SIZE) (heap st)).1 <> NULL ->
  wf_state (final_state (ztrymalloc size st) st).
Proof.
  intros Hc Hwf Hs Hok.
  destruct (ztrymalloc_usable_internal_success size None st Hc Hwf Hs Hok)
    as (st' & Hrun & Hwf' & _).
  unfold ztrymalloc, bind. by rewrite Hrun.
Qed.

End Properties.

(** * The code on the sample builds *)

Import Sample.

Lemma bump_laws : allocator_laws bump_allocator.
Proof.
  split.
  - intros n h. simpl. unfold bump_malloc. case_match; simpl; [lia | done].
  - intros n h. simpl. unfold bump_malloc, bump_malloc_size.
    case_match; simpl; [|done].
    intros _. rewrite lookup_insert_eq. simpl. unfold bump_usable. lia.
  - intros p n h _. simpl. unfold bump_realloc. by case_match.
Qed.

Lemma cfg_header_wf : @wf_config cfg_header.
Proof. split; by vm_compute. Qed.

Lemma cfg_native_wf : @wf_config cfg_native.
Proof. split; by vm_compute. Qed.

Lemma st0_wf cfg : @wf_config cfg -> @wf_state cfg _ (st0 cfg).
Proof. apply initial_state_wf. Qed.

Lemma st1_header_wf : @wf_state cfg_header _ (st1 cfg_header).
Proof.
  apply (@ztrymalloc_final_state_wf cfg_header _ bump_allocator 16 (st0 cfg_header)).
  - exact cfg_header_wf.
  - apply st0_wf, cfg_header_wf.
  - by vm_compute.
  - by vm_compute.
Qed.

Lemma st1_native_wf : @wf_state cfg_native _ (st1 cfg_native).
Proof.
  apply (@ztrymalloc_final_state_wf cfg_native _ bump_allocator 16 (st0 cfg_native)).
  - exact cfg_native_wf.
  - apply st0_wf, cfg_native_wf.
  - by vm_compute.
  - by vm_compute.
Qed.

Lemma st1_full_header_wf : @wf_state cfg_header _ (st1_full cfg_header).
Proof. by apply (wf_state_same (st1 cfg_header)), st1_header_wf. Qed.

Section Header.
#[local] Existing Instance cfg_header.
#[local] Existing Instance bump_allocator.

Local Abbreviation st0 := (st0 cfg_header).
Local Abbreviation st1 := (st1 cfg_header).
Local Abbreviation st1_full := (st1_full cfg_header).
Local Abbreviation ptr1 := (ptr1 cfg_header).

(** On a header build, a request at the threshold is refused at once. *)
Lemma ztrymalloc_overflow_guard_witness :
  SIZE_MAX / 2 >= SIZE_MAX / 2 /\
  ztrymalloc (SIZE_MAX / 2) st0 = Done NULL st0 /\
  ztrymalloc_usable (SIZE_MAX / 2) (Some 7) st0 = Done (NULL, Some 0) st0.
Proof.
  split; [lia|].
  apply (ztrymalloc_overflow_guard (SIZE_MAX / 2) (Some 7) st0). lia.
Defined.

(** A block of 4096 bytes, allocated and released by the first thread. *)
Lemma ztrymalloc_zfree_restores_used_memory_witness :
  exists ptr st1 u st2 um,
    zmalloc_used_memory st0 = Done um st0 /\
    ztrymalloc 4096 st0 = Done ptr st1 /\ ptr <> NULL /\
    zmalloc_usable_size ptr st1 = Done u st1 /\ 4096 <= u /\
    zfree ptr st1 = Done tt st2 /\
    zmalloc_used_memory st2 = Done um st2.
Proof.
  apply (ztrymalloc_zfree_restores_used_memory 4096 st0).
  - exact bump_laws.
  - exact cfg_header_wf.
  - exact (st0_wf cfg_header cfg_header_wf).
  - by vm_compute.
  - by vm_compute.
Defined.

(** The 16-byte block of [st1], reallocated to 32 bytes. *)
Lemma ztryrealloc_accounting_witness :
  exists newptr new st_r st' um,
    ztryrealloc_usable_internal ptr1 32 None st1
      = Done (newptr, write_out None new) st' /\
    same_accounting st1 st_r /\
    trace st_r = trace st1 ++ [Call_realloc (ptr1 - PREFIX_SIZE) (32 + PREFIX_SIZE)] /\
    (update_zmalloc_stat_free 16 ;;; update_zmalloc_stat_alloc new)%zm st_r
      = Done tt st' /\
    trace st' = trace st1 ++ [Call_realloc (ptr1 - PREFIX_SIZE) (32 + PREFIX_SIZE);
                              Stat_free 16; Stat_alloc new] /\
    zmalloc_usable_size newptr st' = Done new st' /\
    zmalloc_used_memory st1 = Done um st1 /\
    zmalloc_used_memory st' = Done (wrap (um - 16 + new)) st'.
Proof.
  apply (ztryrealloc_accounting ptr1 32 None 16 st1).
  - exact cfg_header_wf.
  - exact st1_header_wf.
  - by vm_compute.
  - by vm_compute.
  - by vm_compute.
  - by vm_compute.
Defined.

(** A request of 0 bytes by the first thread. *)
Lemma small_request_rounding_witness :
  exists ptr st',
    ztrymalloc 0 st0 = Done ptr st' /\
    zmalloc 0 st0 = Done ptr st' /\
    ptr <> NULL /\
    MALLOC_MIN_SIZE 0 = sizeof_long /\
    (exists acc, trace st' = trace st0
                   ++ [Call_malloc (sizeof_long + PREFIX_SIZE); Stat_alloc acc]) /\
    (HAVE_MALLOC_SIZE = false ->
     zmalloc_usable_size ptr st' = Done sizeof_long st').
Proof.
  apply (small_request_rounding 0 st0).
  - exact bump_laws.
  - exact cfg_header_wf.
  - exact (st0_wf cfg_header cfg_header_wf).
  - by vm_compute.
  - by vm_compute.
Defined.

(** Reallocation of the block of [st1] to 0 bytes. *)
Lemma ztryrealloc_zero_is_zfree_witness :
  ptr1 <> NULL /\
  ztryrealloc ptr1 0 st1 = (zfree ptr1 ;;; ret NULL)%zm st1.
Proof.
  assert (Hp : ptr1 <> NULL) by (by vm_compute).
  split; [exact Hp|].
  exact (proj1 (proj2 (ztryrealloc_zero_is_zfree ptr1 None st1 Hp))).
Defined.

(** The aggregate query after the first allocation. *)
Lemma zmalloc_used_memory_reads_inside_table_witness :
  used_memory_indices st1 = [0] /\
  zmalloc_used_memory st1 = Done 24 st1.
Proof.
  assert (Hlen : Z.of_nat (length (used_memory_thread st1)) = MAX_THREADS_NUM)
    by (by vm_compute).
  pose proof (zmalloc_used_memory_reads_inside_table st1 Hlen) as (Hi & _ & _ & Hv).
  split; [exact Hi | exact Hv].
Defined.

(** A handler that returns, registered before a request at the threshold. *)
Lemma zmalloc_failure_calls_registered_handler_witness :
  let h := custom_oom 1 (fun _ => true) in
  let st := set_oom_handler h st0 in
  zmalloc (SIZE_MAX / 2) st = Done NULL (emit (Call_oom h (SIZE_MAX / 2)) st).
Proof.
  intros h st.
  refine (proj1 (proj2 (zmalloc_failure_calls_registered_handler
                          h (SIZE_MAX / 2) st0 st st _ _))).
  - reflexivity.
  - by vm_compute.
Defined.

(** Release of the block of [st1] with its usable size, 16. *)
Lemma zfree_with_size_is_zfree_witness :
  zfree_with_size ptr1 16 st1 = zfree ptr1 st1 /\
  zfree_with_size ptr1 16 st1
    = zfree_internal (ptr1 - PREFIX_SIZE) (accounted_size 16) st1.
Proof.
  apply (zfree_with_size_is_zfree ptr1 16 st1).
  - by vm_compute.
  - by vm_compute.
Defined.

(** The two failures of a reallocation of the block of [st1_full]. *)
Lemma ztryrealloc_overflow_guard_frees_witness :
  (exists st' um,
     ztryrealloc ptr1 (SIZE_MAX / 2) st1_full = Done NULL st' /\
     trace st' = trace st1_full
                   ++ [Stat_free (accounted_size 16);
                       release_event (ptr1 - PREFIX_SIZE) (accounted_size 16)] /\
     heap st' = release_heap (ptr1 - PREFIX_SIZE) (accounted_size 16) (heap st1_full) /\
     zmalloc_used_memory st1_full = Done um st1_full /\
     zmalloc_used_memory st' = Done (wrap (um - accounted_size 16)) st') /\
  ztryrealloc ptr1 32 st1_full
    = Done NULL (emit (Call_realloc (ptr1 - PREFIX_SIZE) (32 + PREFIX_SIZE)) st1_full).
Proof.
  assert (Hp : ptr1 <> NULL) by (by vm_compute).
  assert (Hr : ptr1 - PREFIX_SIZE <> NULL) by (by vm_compute).
  assert (Hu : zmalloc_usable_size ptr1 st1_full = Done 16 st1_full) by (by vm_compute).
  destruct (ztryrealloc_overflow_guard_frees ptr1 (SIZE_MAX / 2) 16 st1_full
              bump_laws cfg_header_wf st1_full_header_wf Hp Hr Hu) as [Ha _].
  destruct (ztryrealloc_overflow_guard_frees ptr1 32 16 st1_full
              bump_laws cfg_header_wf st1_full_header_wf Hp Hr Hu) as [_ Hb].
  split.
  - apply Ha. lia.
  - apply Hb; by vm_compute.
Defined.

(** A zero element size. *)
Lemma zcalloc_num_overflow_calls_handler_witness :
  zcalloc_num 10 0 st0 = Abort (emit (Call_oom zmalloc_default_oom SIZE_MAX) st0).
Proof.
  apply (zcalloc_num_overflow_calls_handler 10 0 st0). by left.
Defined.

(** ** Where the code departs from the wording of the specification *)

Lemma done_final_state {A} (o : outcome bump A) (a : A) (st d : zstate bump) :
  o = Done a st -> st = final_state o d.
Proof. by intros ->. Qed.

(** C3, as the specification words it, fails on the block of [st1]: both
    accounting updates come after the call of the underlying realloc. *)
Lemma realloc_brackets_counterexample :
  ptr1 = 4104 /\ 0 < 32 < SIZE_MAX / 2 /\
  (sys_realloc (ptr1 - PREFIX_SIZE) (32 + PREFIX_SIZE) (heap st1)).1 = 4120 /\
  trace (final_state (ztryrealloc_usable_internal ptr1 32 None st1) st1)
    = trace st1 ++ [Call_realloc 4096 40; Stat_free 16; Stat_alloc 32] /\
  ~ realloc_brackets_claim ptr1 32 st1.
Proof.
  split_and!; [by vm_compute | by vm_compute | by vm_compute | by vm_compute
              | by vm_compute |].
  intros (r & st' & Hrun & Hb).
  apply (done_final_state _ _ _ st1) in Hrun. subst st'.
  vm_compute in Hb. discriminate Hb.
Qed.

(** C4, as the specification words it, fails for a request of 1 byte: the
    allocator is asked for 1 byte plus the header, and the usable size of
    the block is 1, not [sizeof(long)]. *)
Lemma min_unit_rounding_counterexample :
  0 <= 1 < sizeof_long /\
  (sys_malloc (MALLOC_MIN_SIZE 1 + PREFIX_SIZE) (heap st0)).1 = 4096 /\
  trace (final_state (ztrymalloc 1 st0) st0) = [Call_malloc 9; Stat_alloc 9] /\
  zmalloc_usable_size 4104 (final_state (ztrymalloc 1 st0) st0)
    = Done 1 (final_state (ztrymalloc 1 st0) st0) /\
  ~ min_unit_rounding_claim 1 st0.
Proof.
  split_and!; [by vm_compute | by vm_compute | by vm_compute | by vm_compute
              | by vm_compute |].
  intros (ptr & st' & Hrun & _ & Hu).
  assert (ptr = 4104) as ->.
  { vm_compute in Hrun. by injection Hrun as <- _. }
  apply (done_final_state _ _ _ st0) in Hrun. subst st'.
  specialize (Hu eq_refl). vm_compute in Hu. discriminate Hu.
Qed.

(** C9, as the specification words it, fails on the block of [st1]: the
    accounting goes down by 24 (the usable size and the header), not by
    the usable size 16. *)
Lemma overflow_free_by_usable_size_counterexample :
  ptr1 = 4104 /\ SIZE_MAX / 2 >= SIZE_MAX / 2 /\
  zmalloc_usable_size ptr1 st1 = Done 16 st1 /\
  zmalloc_used_memory st1 = Done 24 st1 /\
  zmalloc_used_memory (final_state (ztryrealloc ptr1 (SIZE_MAX / 2) st1) st1)
    = Done 0 (final_state (ztryrealloc ptr1 (SIZE_MAX / 2) st1) st1) /\
  ~ overflow_free_by_usable_size_claim ptr1 (SIZE_MAX / 2) st1.
Proof.
  split_and!; [by vm_compute | lia | by vm_compute | by vm_compute
              | by vm_compute |].
  intros (u & um & st' & Hu & Hum & Hrun & Hum').
  assert (u = 16) as -> by (vm_compute in Hu; by injection Hu as <-).
  assert (um = 24) as -> by (vm_compute in Hum; by injection Hum as <-).
  apply (done_final_state _ _ _ st1) in Hrun. subst st'.
  vm_compute in Hum'. discriminate Hum'.
Qed.
End Header.

(** ** The same runs on the jemalloc build

    With the allocator's own size query there is no header: the block of
    16 requested bytes has usable size 24, is accounted for 24, and is
    released through [je_sdallocx]. *)

Section Native.
#[local] Existing Instance cfg_native.
#[local] Existing Instance bump_allocator.

Local Abbreviation st1 := (st1 cfg_native).
Local Abbreviation ptr1 := (ptr1 cfg_native).

Example native_first_block :
  ptr1 = 4096 /\
  trace st1 = [Call_malloc 16; Stat_alloc 24] /\
  zmalloc_usable_size ptr1 st1 = Done 24 st1 /\
  zmalloc_used_memory st1 = Done 24 st1.
Proof. split_and!; by vm_compute. Qed.

Example native_realloc_order :
  trace (final_state (ztryrealloc_usable_internal ptr1 32 None st1) st1)
  = trace st1 ++ [Call_realloc 4096 32; Stat_free 24; Stat_alloc 32].
Proof. by vm_compute. Qed.

Example native_overflow_guard_frees :
  trace (final_state (ztryrealloc ptr1 (SIZE_MAX / 2) st1) st1)
    = trace st1 ++ [Stat_free 24; Call_sdallocx 4096 24] /\
  zmalloc_used_memory (final_state (ztryrealloc ptr1 (SIZE_MAX / 2) st1) st1)
    = Done 0 (final_state (ztryrealloc ptr1 (SIZE_MAX / 2) st1) st1).
Proof. split; by vm_compute. Qed.
End Native.

(** * Further properties of the allocation API *)

Section Coverage.
Context {cfg : Config} {Heap : Type} {alloc : Allocator Heap}.
Local Open Scope zm_scope.

Local Abbreviation M := (M Heap).
Local Abbreviation zstate := (zstate Heap).

Implicit Types (st : zstate) (ptr size : Z) (usable : option Z).

(** ** Reallocation of the null pointer *)

(* the pointer and the final state of an allocation do not depend on
   whether the caller asked for the usable size *)
Lemma ztrymalloc_usable_internal_ptr size usable st :
  (r <- ztrymalloc_usable_internal size usable ;; ret r.1) st
  = (r <- ztrymalloc_usable_internal size None ;; ret r.1) st.
Proof.
  unfold ztrymalloc_usable_internal, bind, ret.
  repeat (case_match; simplify_eq/=; try done).
Qed.

(** X1: reallocation of the null pointer is allocation: [ztryrealloc NULL]
    is [ztrymalloc] and [ztryrealloc_usable NULL] is [ztrymalloc_usable],
    for every size, zero included. *)
Theorem ztryrealloc_null_is_ztrymalloc size usable st :
  ztryrealloc NULL size st = ztrymalloc size st /\
  ztryrealloc_usable NULL size usable st = ztrymalloc_usable size usable st.
Proof.
  assert (Hi : forall u, ztryrealloc_usable_internal NULL size u
                         = ztrymalloc_usable size u).
  { intros u. unfold ztryrealloc_usable_internal. simpl.
    by rewrite andb_false_r. }
  split.
  - unfold ztryrealloc, ztrymalloc. rewrite Hi.
    rewrite <- (ztrymalloc_usable_internal_ptr size (Some 0) st).
    unfold ztrymalloc_usable, bind, ret.
    destruct (ztrymalloc_usable_internal size (Some 0) st) as [[p u] s| |];
      simpl; [|done|done].
    by destruct HAVE_MALLOC_SIZE.
  - unfold ztryrealloc_usable. rewrite Hi.
    unfold ztrymalloc_usable, bind, ret.
    destruct (ztrymalloc_usable_internal size (Some 0) st) as [[p u] s| |];
      simpl; [|done|done].
    by destruct HAVE_MALLOC_SIZE.
Qed.

(** X2: [zrealloc] of the null pointer is [zmalloc] for every size but 0;
    for size 0 it is [ztrymalloc]: a failed allocation of the minimum
    block then returns NULL without a call of the out-of-memory handler. *)
Theorem zrealloc_null_is_zmalloc size st :
  (size <> 0 -> zrealloc NULL size st = zmalloc size st) /\
  zrealloc NULL 0 st = ztrymalloc 0 st.
Proof.
  assert (Hi : forall s u, ztryrealloc_usable_internal NULL s u
                           = ztrymalloc_usable s u).
  { intros s u. unfold ztryrealloc_usable_internal. simpl.
    by rewrite andb_false_r. }
  assert (Hu : forall s,
    ztrymalloc_usable s None st
    = (r <- ztrymalloc_usable_internal s None ;; ret (r.1, None)) st).
  { intros s. pose proof (ztrymalloc_usable_internal_ptr s (Some 0) st) as Hp.
    revert Hp. unfold ztrymalloc_usable, bind, ret.
    destruct (ztrymalloc_usable_internal s (Some 0) st) as [[p u] s1| |],
      (ztrymalloc_usable_internal s None st) as [[p' u'] s2| |];
      simpl; try done.
    all: try (intros [= -> ->]; by destruct HAVE_MALLOC_SIZE).
    by intros [= ->]. }
  split.
  - intros Hs. unfold zrealloc, zmalloc. rewrite Hi.
    unfold bind at 1. rewrite Hu. unfold bind, ret.
    destruct (ztrymalloc_usable_internal size None st) as [[p u] s1| |];
      simpl; [|done|done].
    destruct (Z.eqb_spec size 0); [done|]. simpl.
    by rewrite andb_true_r.
  - unfold zrealloc, ztrymalloc. rewrite Hi.
    unfold bind at 1. rewrite Hu. unfold bind, ret.
    destruct (ztrymalloc_usable_internal 0 None st) as [[p u] s1| |];
      simpl; [|done|done].
    by rewrite andb_false_r.
Qed.

(** ** Zeroed allocation *)

Lemma overflow_guard_calloc_internal size usable st :
  size >= SIZE_MAX / 2 ->
  ztrycalloc_usable_internal size usable st = Done (NULL, usable) st.
Proof.
  intros Hs. unfold ztrycalloc_usable_internal.
  destruct (Z.geb_spec size (SIZE_MAX / 2)); [done | lia].
Qed.

(** X3: for a size at or above [SIZE_MAX / 2], [ztrycalloc] and
    [ztrycalloc_usable] return NULL in the state they started in, and
    [zcalloc] calls the out-of-memory handler with that size without
    having asked the underlying allocator. *)
Theorem zcalloc_overflow_guard size usable st :
  size >= SIZE_MAX / 2 ->
  ztrycalloc size st = Done NULL st /\
  ztrycalloc_usable size usable st = Done (NULL, write_out usable 0) st /\
  zcalloc size st =
    (if handler_returns (zmalloc_oom_handler st) size
     then Done NULL (emit (Call_oom (zmalloc_oom_handler st) size) st)
     else Abort (emit (Call_oom (zmalloc_oom_handler st) size) st)).
Proof.
  intros Hs. unfold ztrycalloc, ztrycalloc_usable, zcalloc, bind.
  rewrite !overflow_guard_calloc_internal by done. simpl.
  split_and!; [done | by destruct HAVE_MALLOC_SIZE |].
  unfold call_oom_handler. by destruct (handler_returns _ _).
Qed.

(** X4: when the product of a count and a non-zero element size fits in
    [size_t], [zcalloc_num] is [zcalloc] of the product. *)
Theorem zcalloc_num_is_zcalloc num size st :
  0 <= num -> 0 < size -> num <= SIZE_MAX / size ->
  zcalloc_num num size st = zcalloc (num * size) st.
Proof.
  intros Hn Hs Hle. unfold zcalloc_num, zcalloc.
  destruct (Z.eqb_spec size 0); [lia|].
  destruct (Z.gtb_spec num (SIZE_MAX / size)); [lia|]. simpl.
  assert (Hprod : num * size <= SIZE_MAX).
  { pose proof (Z.mul_div_le SIZE_MAX size Hs).
    assert (num * size <= SIZE_MAX / size * size) by nia. lia. }
  rewrite (wrap_small (num * size)) by nia. done.
Qed.

(** ** The panicking reallocation *)

(** X5: [zrealloc] and [zrealloc_usable] of a non-null pointer to size 0
    release the block and return NULL; the out-of-memory handler is not
    called although the result is NULL. *)
Theorem zrealloc_zero_never_panics ptr usable st :
  ptr <> NULL ->
  zrealloc ptr 0 st = (zfree ptr ;;; ret NULL) st /\
  zrealloc_usable ptr 0 usable st
    = (zfree ptr ;;; ret (NULL, write_out usable 0)) st.
Proof.
  intros Hp.
  assert (Hi : forall u, ztryrealloc_usable_internal ptr 0 u st
                         = (zfree ptr ;;; ret (NULL, write_out u 0)) st).
  { intros u. unfold ztryrealloc_usable_internal.
    by destruct (Z.eqb_spec ptr NULL). }
  split.
  - unfold zrealloc, bind. rewrite Hi. unfold bind.
    by destruct (zfree ptr st).
  - unfold zrealloc_usable, ztryrealloc_usable. unfold bind. rewrite Hi.
    unfold bind. destruct (zfree ptr st); [|done|done]. simpl.
    by destruct HAVE_MALLOC_SIZE.
Qed.

(** X6: [zrealloc] of a non-null pointer to a size at or above
    [SIZE_MAX / 2] first releases the block, then calls the out-of-memory
    handler with the requested size, and returns NULL if the handler
    returns. *)
Theorem zrealloc_overflow_frees_then_panics ptr size st :
  wf_config -> ptr <> NULL -> size >= SIZE_MAX / 2 ->
  zrealloc ptr size st
  = (zfree ptr ;;; call_oom_handler size ;;; ret NULL) st.
Proof.
  intros Hc Hp Hs.
  pose proof (half_size_max Hc) as Hhalf. pose proof (pow_bits_pos Hc) as Hpow.
  assert (Hbig : 32767 <= SIZE_MAX / 2) by (unfold SIZE_MAX in *; lia).
  unfold zrealloc, ztryrealloc_usable_internal.
  destruct (Z.eqb_spec size 0); [lia|]. simpl.
  destruct (Z.eqb_spec ptr NULL); [done|].
  destruct (Z.geb_spec size (SIZE_MAX / 2)); [|lia].
  unfold bind. destruct (zfree ptr st) as [a s1| |]; [|done|done]. simpl.
  by destruct (call_oom_handler size s1).
Qed.
(** ** What a successful allocation reports and accounts *)

Lemma accounted_of_usable size p (h : Heap) :
  accounted_of size p h = accounted_size (usable_of size p h).
Proof. unfold accounted_of, accounted_size, usable_of. by destruct HAVE_MALLOC_SIZE. Qed.

(** X7: when the underlying allocator succeeds, the usable size
    [ztrymalloc_usable] and [zmalloc_usable] hand back through [usable] is
    the one [zmalloc_usable_size] answers for the returned pointer, and it
    is at least the requested size. *)
Theorem zmalloc_usable_reports_usable_size size usable st :
  allocator_laws alloc -> wf_config -> wf_state st ->
  0 <= size < SIZE_MAX / 2 ->
  (sys_malloc (MALLOC_MIN_SIZE size + PREFIX_SIZE) (heap st)).1 <> NULL ->
  exists ptr u st',
    ztrymalloc_usable size usable st = Done (ptr, write_out usable u) st' /\
    zmalloc_usable size usable st = Done (ptr, write_out usable u) st' /\
    ptr <> NULL /\
    zmalloc_usable_size ptr st' = Done u st' /\
    size <= u.
Proof.
  intros Hl Hc Hwf Hs Hok.
  set (r := sys_malloc (MALLOC_MIN_SIZE size + PREFIX_SIZE) (heap st)) in *.
  destruct (ztrymalloc_usable_internal_success size (Some 0) st Hc Hwf Hs Hok)
    as (st' & Hrun & Hwf' & _ & _ & Hheap & Hmem & _).
  fold r in Hrun, Hheap, Hmem.
  pose proof (prefix_size_range Hc) as Hpre.
  pose proof (sys_malloc_nonneg _ Hl (MALLOC_MIN_SIZE size + PREFIX_SIZE) (heap st)) as Hnn.
  fold r in Hnn.
  assert (Hptr : r.1 + PREFIX_SIZE <> NULL) by (unfold NULL in *; lia).
  destruct (sizes_of_new_block size r.1 r.2 st' Hc Hs Hheap) as [_ Hu].
  { intros Hn. rewrite Hmem, Hn. apply lookup_insert_eq. }
  exists (r.1 + PREFIX_SIZE), (usable_of size r.1 r.2), st'.
  split_and!; try done.
  - unfold ztrymalloc_usable, bind. rewrite Hrun. simpl.
    by destruct HAVE_MALLOC_SIZE.
  - unfold zmalloc_usable, bind. rewrite Hrun. simpl.
    destruct (Z.eqb_spec (r.1 + PREFIX_SIZE) NULL); [done|]. simpl.
    by destruct HAVE_MALLOC_SIZE.
  - by apply usable_of_ge.
Qed.

(** X8: a successful allocation raises [zmalloc_used_memory] by the usable
    size of the new block plus, on a header build, the [PREFIX_SIZE] bytes
    of its header. *)
Theorem ztrymalloc_accounts_usable_and_header size st :
  allocator_laws alloc -> wf_config -> wf_state st ->
  0 <= size < SIZE_MAX / 2 ->
  (sys_malloc (MALLOC_MIN_SIZE size + PREFIX_SIZE) (heap st)).1 <> NULL ->
  exists ptr u st' um,
    ztrymalloc size st = Done ptr st' /\
    zmalloc_usable_size ptr st' = Done u st' /\
    zmalloc_used_memory st = Done um st /\
    zmalloc_used_memory st'
      = Done (wrap (um + (if HAVE_MALLOC_SIZE then u else u + PREFIX_SIZE))) st'.
Proof.
  intros Hl Hc Hwf Hs Hok.
  set (r := sys_malloc (MALLOC_MIN_SIZE size + PREFIX_SIZE) (heap st)) in *.
  destruct (ztrymalloc_usable_internal_success size None st Hc Hwf Hs Hok)
    as (st' & Hrun & Hwf' & Hval & _ & Hheap & Hmem & _).
  fold r in Hrun, Hheap, Hmem, Hval.
  destruct (sizes_of_new_block size r.1 r.2 st' Hc Hs Hheap) as [_ Hu].
  { intros Hn. rewrite Hmem, Hn. apply lookup_insert_eq. }
  exists (r.1 + PREFIX_SIZE), (usable_of size r.1 r.2), st', (used_memory_value st).
  split_and!; try done.
  - unfold ztrymalloc, bind. by rewrite Hrun.
  - apply zmalloc_used_memory_value, Hwf.
  - rewrite zmalloc_used_memory_value by apply Hwf'. f_equal.
    rewrite Hval, accounted_of_usable. unfold accounted_size.
    destruct HAVE_MALLOC_SIZE; [done|]. by rewrite wrap_add_r.
Qed.

(** X9: an allocation that returns NULL, whatever the reason, leaves the
    accounting, the headers in memory and the registered handler as they
    were.  *)
Theorem ztrymalloc_null_keeps_accounting size st st' :
  allocator_laws alloc -> wf_config ->
  ztrymalloc size st = Done NULL st' ->
  same_accounting st st' /\ mem st' = mem st /\
  zmalloc_oom_handler st' = zmalloc_oom_handler st.
Proof.
  intros Hl Hc.
  pose proof (prefix_size_range Hc) as Hpre.
  pose proof (sys_malloc_nonneg _ Hl (wrap (MALLOC_MIN_SIZE size + PREFIX_SIZE)) (heap st)) as Hnn.
  unfold ztrymalloc, ztrymalloc_usable_internal, bind, ret, malloc, zmalloc_size,
    store_size_t.
  destruct (Z.geb_spec size (SIZE_MAX / 2)).
  { simpl. by intros [= <-]. }
  simpl.
  set (r := sys_malloc _ _) in *.
  destruct (Z.eqb_spec r.1 NULL) as [He|Hne].
  { simpl. by intros [= <-]. }
  destruct HAVE_MALLOC_SIZE eqn:Hn.
  - destruct (update_zmalloc_stat_alloc _ _); simpl; [|done|done].
    intros [= He _]. done.
  - destruct (update_zmalloc_stat_alloc _ _); simpl; [|done|done].
    intros [= He _]. unfold NULL in *. lia.
Qed.

(** ** The per-thread counters *)

Lemma account_effect delta st :
  wf_config -> wf_state st ->
  exists st',
    account delta st = Done tt st' /\
    thread_index st'
      = (if thread_index st =? -1 then total_active_threads st else thread_index st) /\
    total_active_threads st'
      = (if thread_index st =? -1 then total_active_threads st + 1
         else total_active_threads st) /\
    0 <= thread_index st' /\
    (if thread_index st' >=? MAX_THREADS_NUM then
       used_memory_thread st' = used_memory_thread st /\
       used_memory_for_additional_threads st'
         = wrap (used_memory_for_additional_threads st + delta)
     else
       used_memory_for_additional_threads st'
         = used_memory_for_additional_threads st /\
       exists v, used_memory_thread st !! Z.to_nat (thread_index st') = Some v /\
                 used_memory_thread st'
                   = <[Z.to_nat (thread_index st') := wrap (v + delta)]>
                       (used_memory_thread st)).
Proof.
  intros Hc [Htab Hsl Hadd Htot Hidx Hus Hua].
  pose proof (max_threads_range Hc) as Hmax.
  unfold account, bind, get_thread_index, ret, zmalloc_register_thread_index.
  destruct Hidx as [[Hi Hlt] | Hi].
  - rewrite Hi. simpl. rewrite wrap_int_small by lia.
    destruct (Z.geb_spec (total_active_threads st) MAX_THREADS_NUM) as [Hge|Hlt'].
    + eexists. split; [done|]. simpl.
      destruct (Z.geb_spec (total_active_threads st) MAX_THREADS_NUM); [|lia].
      split_and!; try done; lia.
    + unfold read_slot, write_slot. simpl.
      destruct (Z.leb_spec 0 (total_active_threads st)); [|lia].
      destruct (used_memory_thread st !! Z.to_nat (total_active_threads st))
        as [v|] eqn:Hv.
      2: { apply lookup_ge_None in Hv. lia. }
      simpl. destruct (Z.ltb_spec (total_active_threads st)
                         (Z.of_nat (length (used_memory_thread st)))); [|lia].
      simpl. eexists. split; [done|]. simpl.
      destruct (Z.geb_spec (total_active_threads st) MAX_THREADS_NUM); [lia|].
      split_and!; try done. by exists v.
  - destruct (Z.eqb_spec (thread_index st) (-1)); [lia|]. simpl.
    destruct (Z.geb_spec (thread_index st) MAX_THREADS_NUM) as [Hge|Hlt'].
    + eexists. split; [done|]. simpl.
      destruct (Z.geb_spec (thread_index st) MAX_THREADS_NUM); [|lia].
      split_and!; try done; lia.
    + unfold read_slot, write_slot.
      destruct (Z.leb_spec 0 (thread_index st)); [|lia].
      destruct (used_memory_thread st !! Z.to_nat (thread_index st))
        as [v|] eqn:Hv.
      2: { apply lookup_ge_None in Hv. lia. }
      simpl. destruct (Z.ltb_spec (thread_index st)
                         (Z.of_nat (length (used_memory_thread st)))); [|lia].
      simpl. eexists. split; [done|]. simpl.
      destruct (Z.geb_spec (thread_index st) MAX_THREADS_NUM); [lia|].
      split_and!; try done. by exists v.
Qed.

(** X10: a thread gets its index at its first accounting update, the
    number of threads registered so far, and the thread count goes up by
    one; every later update, addition or removal, leaves both the index
    and the thread count as they are. *)
Theorem thread_index_assigned_once size st :
  wf_config -> wf_state st ->
  exists sta stf,
    update_zmalloc_stat_alloc size st = Done tt sta /\
    update_zmalloc_stat_free size st = Done tt stf /\
    thread_index sta = thread_index stf /\
    total_active_threads sta = total_active_threads stf /\
    (thread_index st = -1 ->
     thread_index sta = total_active_threads st /\
     total_active_threads sta = total_active_threads st + 1) /\
    (thread_index st <> -1 ->
     thread_index sta = thread_index st /\
     total_active_threads sta = total_active_threads st).
Proof.
  intros Hc Hwf.
  destruct (account_effect size (emit (Stat_alloc size) st) Hc (wf_state_emit _ _ Hwf))
    as (sta & Ha & Hia & Hta & _).
  destruct (account_effect (- size) (emit (Stat_free size) st) Hc (wf_state_emit _ _ Hwf))
    as (stf & Hf & Hif & Htf & _).
  simpl in *.
  exists sta, stf.
  rewrite update_zmalloc_stat_alloc_account, update_zmalloc_stat_free_account.
  split_and!; try done; try congruence.
  - intros Hi. rewrite Hi in *. done.
  - intros Hi. destruct (Z.eqb_spec (thread_index st) (-1)); done.
Qed.

(** X11: an accounting update writes one counter only: the slot of the
    calling thread when its index is below [MAX_THREADS_NUM], with every
    other slot and the overflow counter untouched, and the overflow
    counter otherwise, with the whole table untouched. *)
Theorem update_writes_own_counter_only size st :
  wf_config -> wf_state st ->
  exists st',
    update_zmalloc_stat_alloc size st = Done tt st' /\
    (forall j, Z.of_nat j <> thread_index st' ->
       used_memory_thread st' !! j = used_memory_thread st !! j) /\
    (thread_index st' < MAX_THREADS_NUM ->
     used_memory_for_additional_threads st' = used_memory_for_additional_threads st /\
     exists v, used_memory_thread st !! Z.to_nat (thread_index st') = Some v /\
               used_memory_thread st' !! Z.to_nat (thread_index st')
                 = Some (wrap (v + size))) /\
    (MAX_THREADS_NUM <= thread_index st' ->
     used_memory_thread st' = used_memory_thread st /\
     used_memory_for_additional_threads st'
       = wrap (used_memory_for_additional_threads st + size)).
Proof.
  intros Hc Hwf.
  destruct (account_effect size (emit (Stat_alloc size) st) Hc (wf_state_emit _ _ Hwf))
    as (st' & Ha & _ & _ & Hnn & Heff).
  simpl in *. exists st'. rewrite update_zmalloc_stat_alloc_account.
  split; [done|].
  destruct (Z.geb_spec (thread_index st') MAX_THREADS_NUM) as [Hge|Hlt].
  - destruct Heff as [Ht Ho]. split_and!; [by rewrite Ht | lia | done].
  - destruct Heff as [Ho (v & Hv & Ht)]. split_and!; [| |lia].
    + intros j Hj. rewrite Ht. apply list_lookup_insert_ne. lia.
    + intros _. split; [done|]. exists v. split; [done|].
      rewrite Ht. apply list_lookup_insert_eq.
      apply lookup_lt_Some in Hv. done.
Qed.

(** ** The invariant of the accounting *)

Lemma preserves_ret {A} (a : A) : preserves_wf (Heap:=Heap) (ret a).
Proof. by intros st a' st' Hwf [= _ <-]. Qed.

Lemma preserves_bind {A B} (m : M A) (k : A -> M B) :
  preserves_wf (Heap:=Heap) m -> (forall a, preserves_wf (Heap:=Heap) (k a)) -> preserves_wf (Heap:=Heap) (bind m k).
Proof.
  intros Hm Hk st b st' Hwf. unfold bind.
  destruct (m st) as [a s| |] eqn:Em; [|done|done].
  intros Hrun. eapply Hk; [|exact Hrun]. by eapply Hm.
Qed.

Lemma preserves_same {A} (m : M A) :
  (forall st a st', m st = Done a st' -> same_accounting st st') ->
  preserves_wf (Heap:=Heap) m.
Proof. intros Hs st a st' Hwf Hrun. eapply wf_state_same; [|done]. by eapply Hs. Qed.

Lemma preserves_abort {A} : preserves_wf (Heap:=Heap) (fun st => @Abort Heap A st).
Proof. by intros st a st' _. Qed.

Lemma preserves_load addr : preserves_wf (Heap:=Heap) (load_size_t addr).
Proof.
  apply preserves_same. intros st a st'. unfold load_size_t.
  case_match; [|done]. by intros [= _ <-].
Qed.

Lemma preserves_store addr v : preserves_wf (Heap:=Heap) (store_size_t addr v).
Proof. apply preserves_same. by intros st a st' [= _ <-]. Qed.

Lemma preserves_malloc size : preserves_wf (Heap:=Heap) (malloc size).
Proof. apply preserves_same. by intros st a st' [= _ <-]. Qed.

Lemma preserves_calloc n size : preserves_wf (Heap:=Heap) (calloc n size).
Proof. apply preserves_same. by intros st a st' [= _ <-]. Qed.

Lemma preserves_realloc ptr size : preserves_wf (Heap:=Heap) (realloc ptr size).
Proof. apply preserves_same. by intros st a st' [= _ <-]. Qed.

Lemma preserves_free ptr : preserves_wf (Heap:=Heap) (free ptr).
Proof. apply preserves_same. by intros st [] st' [= <-]. Qed.

Lemma preserves_sdallocx ptr size : preserves_wf (Heap:=Heap) (je_sdallocx ptr size).
Proof. apply preserves_same. by intros st [] st' [= <-]. Qed.

Lemma preserves_oom size : preserves_wf (Heap:=Heap) (call_oom_handler size).
Proof.
  apply preserves_same. intros st [] st'. unfold call_oom_handler.
  case_match; [|done]. by intros [= <-].
Qed.

Lemma preserves_set_oom_handler h : preserves_wf (Heap:=Heap) (zmalloc_set_oom_handler h).
Proof. apply preserves_same. by intros st [] st' [= <-]. Qed.

Lemma preserves_stat_alloc size :
  wf_config -> preserves_wf (Heap:=Heap) (update_zmalloc_stat_alloc size).
Proof.
  intros Hc st a st' Hwf Hrun.
  destruct (update_zmalloc_stat_alloc_spec size st Hc Hwf) as (s & Hs & Hwfs & _).
  rewrite Hs in Hrun. by simplify_eq.
Qed.

Lemma preserves_stat_free size :
  wf_config -> preserves_wf (Heap:=Heap) (update_zmalloc_stat_free size).
Proof.
  intros Hc st a st' Hwf Hrun.
  destruct (update_zmalloc_stat_free_spec size st Hc Hwf) as (s & Hs & Hwfs & _).
  rewrite Hs in Hrun. by simplify_eq.
Qed.

Lemma preserves_zmalloc_size ptr : preserves_wf (Heap:=Heap) (zmalloc_size ptr).
Proof.
  unfold zmalloc_size. case_match.
  - apply preserves_same. by intros st a st' [= _ <-].
  - apply preserves_bind; [apply preserves_load | intros; apply preserves_ret].
Qed.

Lemma sum_slots_state indices um st a st' :
  sum_slots indices um st = Done a st' -> st' = st.
Proof.
  revert um. induction indices as [|i rest IH]; intros um; simpl.
  { by intros [= _ <-]. }
  unfold bind, read_slot. repeat (case_match; try done).
  all: simplify_eq; apply IH.
Qed.

Lemma preserves_used_memory : preserves_wf (Heap:=Heap) zmalloc_used_memory.
Proof.
  intros st a st' Hwf Hrun. unfold zmalloc_used_memory in Hrun.
  by apply sum_slots_state in Hrun as ->.
Qed.

Create HintDb preserves.
Hint Resolve preserves_ret preserves_abort preserves_load preserves_store
  preserves_malloc preserves_calloc preserves_realloc preserves_free
  preserves_sdallocx preserves_oom preserves_set_oom_handler
  preserves_stat_alloc preserves_stat_free preserves_zmalloc_size
  preserves_used_memory : preserves.

(* break a computation into its steps *)
Ltac preserves_steps :=
  repeat first
    [ progress auto with preserves
    | apply preserves_bind; [|intros ?]
    | case_match ].

Lemma preserves_ztrymalloc_internal size usable :
  wf_config -> preserves_wf (Heap:=Heap) (ztrymalloc_usable_internal size usable).
Proof. intros Hc. unfold ztrymalloc_usable_internal. preserves_steps. Qed.

Lemma preserves_ztrycalloc_internal size usable :
  wf_config -> preserves_wf (Heap:=Heap) (ztrycalloc_usable_internal size usable).
Proof. intros Hc. unfold ztrycalloc_usable_internal. preserves_steps. Qed.

Lemma preserves_zfree_internal ptr size :
  wf_config -> preserves_wf (Heap:=Heap) (zfree_internal ptr size).
Proof. intros Hc. unfold zfree_internal. preserves_steps. Qed.

Lemma preserves_zfree ptr : wf_config -> preserves_wf (Heap:=Heap) (zfree ptr).
Proof.
  intros Hc. pose proof (preserves_zfree_internal) as Hi.
  unfold zfree. preserves_steps; eauto.
Qed.

Lemma preserves_zfree_with_size ptr size :
  wf_config -> preserves_wf (Heap:=Heap) (zfree_with_size ptr size).
Proof.
  intros Hc. pose proof (preserves_zfree_internal) as Hi.
  unfold zfree_with_size. preserves_steps; eauto.
Qed.

Lemma preserves_ztrymalloc_usable size usable :
  wf_config -> preserves_wf (Heap:=Heap) (ztrymalloc_usable size usable).
Proof.
  intros Hc. pose proof (preserves_ztrymalloc_internal) as Hi.
  unfold ztrymalloc_usable. preserves_steps; eauto.
Qed.

Lemma preserves_ztryrealloc_internal ptr size usable :
  wf_config -> preserves_wf (Heap:=Heap) (ztryrealloc_usable_internal ptr size usable).
Proof.
  intros Hc.
  pose proof (preserves_zfree) as Hf.
  pose proof (preserves_ztrymalloc_usable) as Hm.
  unfold ztryrealloc_usable_internal.
  preserves_steps; eauto.
Qed.

Lemma preserves_ztryrealloc_usable ptr size usable :
  wf_config -> preserves_wf (Heap:=Heap) (ztryrealloc_usable ptr size usable).
Proof.
  intros Hc. pose proof (preserves_ztryrealloc_internal) as Hi.
  unfold ztryrealloc_usable. preserves_steps; eauto.
Qed.

Lemma preserves_run_call (c : api_call) :
  wf_config -> preserves_wf (Heap:=Heap) (run_call c).
Proof.
  intros Hc.
  pose proof (preserves_ztrymalloc_internal) as H1.
  pose proof (preserves_ztrycalloc_internal) as H2.
  pose proof (preserves_zfree) as H3.
  pose proof (preserves_zfree_with_size) as H4.
  pose proof (preserves_ztrymalloc_usable) as H5.
  pose proof (preserves_ztryrealloc_internal) as H6.
  pose proof (preserves_ztryrealloc_usable) as H7.
  destruct c; simpl;
    unfold zmalloc, ztrymalloc, zmalloc_usable, zcalloc, ztrycalloc,
      zcalloc_usable, ztrycalloc_usable, zcalloc_num, zrealloc, ztryrealloc,
      zrealloc_usable, zmalloc_usable_size, zmalloc_usable_size_native;
    preserves_steps; eauto.
Qed.

(** X12: every call of the API that returns keeps the invariant of the
    accounting ([wf_state]): the table keeps its length, the counters stay
    [size_t] values, the calling thread's index stays valid, and counters
    nobody was given stay zero. *)
Theorem run_call_keeps_invariant (c : api_call) st st' :
  wf_config -> wf_state st ->
  run_call c st = Done tt st' ->
  wf_state st'.
Proof. intros Hc Hwf Hrun. by eapply (preserves_run_call c Hc). Qed.

Lemma run_calls_keep_invariant (cs : list api_call) st st' :
  wf_config -> wf_state st ->
  run_calls cs st = Done tt st' ->
  wf_state st'.
Proof.
  intros Hc. revert st. induction cs as [|c cs IH]; intros st Hwf; simpl.
  { by intros [= <-]. }
  unfold bind. destruct (run_call c st) as [[] s| |] eqn:Ec; [|done|done].
  intros Hrun. eapply IH; [|exact Hrun].
  by eapply (preserves_run_call c Hc).
Qed.

(** X13: in every state a single thread reaches from the start of the
    process by calls of the API, the aggregate query returns
    ([zmalloc_used_memory] stays inside the table), and the next
    accounting update finds a valid counter. *)
Theorem reachable_states_are_accounted (h : Heap) (cs : list api_call) st size :
  wf_config ->
  run_calls cs (initial_state h) = Done tt st ->
  wf_state st /\
  zmalloc_used_memory st = Done (used_memory_value st) st /\
  (exists st', update_zmalloc_stat_alloc size st = Done tt st') /\
  (exists st', update_zmalloc_stat_free size st = Done tt st').
Proof.
  intros Hc Hrun.
  assert (Hwf : wf_state st).
  { eapply run_calls_keep_invariant; [done| |exact Hrun].
    by apply initial_state_wf. }
  split_and!; [done| | |].
  - apply zmalloc_used_memory_value, Hwf.
  - destruct (update_zmalloc_stat_alloc_spec size st Hc Hwf) as (s & Hs & _). eauto.
  - destruct (update_zmalloc_stat_free_spec size st Hc Hwf) as (s & Hs & _). eauto.
Qed.

(** ** Release after reallocation *)

Lemma wrap_sub_r x y : wrap (x - wrap y) = wrap (x - y).
Proof. unfold wrap. apply Zminus_mod_idemp_r. Qed.

(* what a successful reallocation of a live block leaves behind *)
Lemma ztryrealloc_usable_internal_success ptr size usable old st :
  wf_config -> wf_state st ->
  ptr <> NULL -> 0 < size < SIZE_MAX / 2 ->
  zmalloc_usable_size ptr st = Done old st ->
  let r := sys_realloc (ptr - PREFIX_SIZE) (size + PREFIX_SIZE) (heap st) in
  r.1 <> NULL ->
  exists new st',
    ztryrealloc_usable_internal ptr size usable st
      = Done (r.1 + PREFIX_SIZE, write_out usable new) st' /\
    wf_state st' /\
    used_memory_value st' = wrap (used_memory_value st - old + new) /\
    zmalloc_usable_size (r.1 + PREFIX_SIZE) st' = Done new st'.
Proof.
  intros Hc Hwf Hp Hs Hold r Hok.
  pose proof (prefix_size_range Hc) as Hpre.
  pose proof (half_size_max Hc) as Hhalf.
  assert (Hreq : wrap (size + PREFIX_SIZE) = size + PREFIX_SIZE)
    by (apply wrap_small; lia).
  apply old_size_of_usable in Hold.
  unfold ztryrealloc_usable_internal.
  destruct (Z.eqb_spec size 0); [lia|]. simpl.
  destruct (Z.eqb_spec ptr NULL); [done|].
  destruct (Z.geb_spec size (SIZE_MAX / 2)); [lia|].
  destruct HAVE_MALLOC_SIZE eqn:Hn.
  - assert (Hreal : ptr - PREFIX_SIZE = ptr).
    { rewrite (prefix_size_native Hn). lia. }
    assert (Hreq' : size + PREFIX_SIZE = size).
    { rewrite (prefix_size_native Hn). lia. }
    subst r. rewrite Hreal, Hreq' in *.
    set (r := sys_realloc ptr size (heap st)) in *.
    rewrite (prefix_size_native Hn), Z.add_0_r.
    unfold bind at 1. rewrite Hold.
    unfold bind at 1. unfold realloc at 1. fold r. simpl.
    destruct (Z.eqb_spec r.1 NULL); [done|].
    set (str := emit (Call_realloc ptr size) _).
    assert (Hwfr : wf_state str) by (by apply (wf_state_same st)).
    unfold bind at 1.
    destruct (update_zmalloc_stat_free_spec old str Hc Hwfr)
      as (stf & -> & Hwff & Hvalf & _ & Hheapf & _ & _).
    unfold bind at 1. unfold zmalloc_size at 1. rewrite Hn.
    unfold bind at 1.
    destruct (update_zmalloc_stat_alloc_spec (sys_malloc_size r.1 (heap stf)) stf Hc Hwff)
      as (st' & -> & Hwf' & Hval' & _ & Hheap' & _ & _).
    exists (sys_malloc_size r.1 (heap stf)), st'. split_and!; try done.
    + rewrite Hval', Hvalf, wrap_add_l. f_equal.
    + unfold zmalloc_usable_size, zmalloc_usable_size_native, zmalloc_size.
      by rewrite Hn, Hheap'.
  - unfold bind at 1. rewrite Hold.
    unfold bind at 1. unfold realloc at 1. rewrite Hreq. fold r. simpl.
    destruct (Z.eqb_spec r.1 NULL); [done|].
    set (str := emit (Call_realloc _ _) _).
    assert (Hwfr : wf_state str) by (by apply (wf_state_same st)).
    unfold bind at 1. unfold store_size_t at 1.
    set (sts := set_mem _ str).
    assert (Hwfs : wf_state sts) by (by apply (wf_state_same str)).
    unfold bind at 1.
    destruct (update_zmalloc_stat_free_spec old sts Hc Hwfs)
      as (stf & -> & Hwff & Hvalf & _ & _ & Hmemf & _).
    unfold bind at 1.
    destruct (update_zmalloc_stat_alloc_spec size stf Hc Hwff)
      as (st' & -> & Hwf' & Hval' & _ & _ & Hmem' & _).
    exists size, st'. split_and!; try done.
    + rewrite Hval', Hvalf, wrap_add_l. f_equal.
    + unfold zmalloc_usable_size, zmalloc_size. rewrite Hn.
      unfold bind, load_size_t, ret.
      replace (r.1 + PREFIX_SIZE - PREFIX_SIZE) with r.1 by lia.
      rewrite Hmem', Hmemf. simpl. rewrite lookup_insert_eq.
      f_equal. rewrite wrap_sub_l.
      replace (wrap size + PREFIX_SIZE - PREFIX_SIZE) with (wrap size) by lia.
      rewrite wrap_wrap. apply wrap_small. lia.
Qed.

(** X14: releasing the block a successful reallocation returned takes off
    the accounting, over the two calls, what releasing the original block
    would have taken off: its usable size and, on a header build, its
    header. *)
Theorem zfree_after_ztryrealloc ptr size old st :
  wf_config -> wf_state st ->
  ptr <> NULL -> 0 < size < SIZE_MAX / 2 ->
  zmalloc_usable_size ptr st = Done old st ->
  0 < (sys_realloc (ptr - PREFIX_SIZE) (size + PREFIX_SIZE) (heap st)).1 ->
  exists newptr st1 st2 um,
    ztryrealloc ptr size st = Done newptr st1 /\ newptr <> NULL /\
    zfree newptr st1 = Done tt st2 /\
    zmalloc_used_memory st = Done um st /\
    zmalloc_used_memory st2 = Done (wrap (um - accounted_size old)) st2.
Proof.
  intros Hc Hwf Hp Hs Hold Hpos.
  pose proof (prefix_size_range Hc) as Hpre.
  set (r := sys_realloc (ptr - PREFIX_SIZE) (size + PREFIX_SIZE) (heap st)) in *.
  assert (Hok : r.1 <> NULL) by (unfold NULL; lia).
  destruct (ztryrealloc_usable_internal_success ptr size None old st
              Hc Hwf Hp Hs Hold Hok) as (new & st1 & Hrun & Hwf1 & Hval1 & Hnew).
  fold r in Hrun, Hnew.
  assert (Hptr : r.1 + PREFIX_SIZE <> NULL) by (unfold NULL in *; lia).
  assert (Hreal : r.1 + PREFIX_SIZE - PREFIX_SIZE <> NULL).
  { by replace (r.1 + PREFIX_SIZE - PREFIX_SIZE) with r.1 by lia. }
  destruct (zfree_spec (r.1 + PREFIX_SIZE) _ st1 Hc Hwf1 Hptr Hreal
              (zmalloc_size_of_usable _ _ _ Hnew))
    as (st2 & Hfree & Hwf2 & Hval2 & _).
  exists (r.1 + PREFIX_SIZE), st1, st2, (used_memory_value st).
  split_and!; try done.
  - unfold ztryrealloc, bind. by rewrite Hrun.
  - apply zmalloc_used_memory_value, Hwf.
  - rewrite zmalloc_used_memory_value by apply Hwf2. f_equal.
    rewrite Hval2, Hval1, wrap_sub_l. unfold accounted_size.
    destruct HAVE_MALLOC_SIZE.
    + f_equal. lia.
    + rewrite !wrap_sub_r. f_equal. lia.
Qed.

(** X15: [zfree_with_size] trusts its caller: it never reads the size of
    the block (it returns even where the header is unreadable), and it
    takes off the accounting the size it was given plus, on a header
    build, the header, whatever the block's real size is. *)
Theorem zfree_with_size_trusts_caller ptr s st :
  wf_config -> wf_state st ->
  ptr <> NULL -> ptr - PREFIX_SIZE <> NULL ->
  exists st' um,
    zfree_with_size ptr s st = Done tt st' /\
    trace st' = trace st ++ [Stat_free (accounted_size s);
                             release_event (ptr - PREFIX_SIZE) (accounted_size s)] /\
    mem st' = delete (ptr - PREFIX_SIZE) (mem st) /\
    zmalloc_used_memory st = Done um st /\
    zmalloc_used_memory st' = Done (wrap (um - accounted_size s)) st'.
Proof.
  intros Hc Hwf Hp Hreal.
  destruct (zfree_internal_spec (ptr - PREFIX_SIZE) (accounted_size s) st Hc Hwf Hreal)
    as (st' & Hrun & Hwf' & Hval & _ & _ & Hmem & Htr).
  exists st', (used_memory_value st). split_and!; try done.
  - rewrite <- Hrun. unfold zfree_with_size, accounted_size.
    destruct (Z.eqb_spec ptr NULL); [done|].
    destruct HAVE_MALLOC_SIZE eqn:Hn; [|done].
    by rewrite (prefix_size_native Hn), Z.sub_0_r.
  - apply zmalloc_used_memory_value, Hwf.
  - rewrite zmalloc_used_memory_value by apply Hwf'. by rewrite Hval.
Qed.

(** ** The page release hint *)

Lemma land_page_mask k x :
  0 <= k -> 0 <= size_t_bits -> 0 <= x <= SIZE_MAX ->
  Z.land x (wrap (Z.lnot (2 ^ k - 1))) = x / 2 ^ k * 2 ^ k.
Proof.
  intros Hk Hb Hx. unfold wrap.
  rewrite <- (Z.land_ones _ size_t_bits) by done.
  replace (2 ^ k - 1) with (Z.ones k) by (rewrite Z.ones_equiv; lia).
  rewrite (Z.land_comm (Z.lnot _)), Z.land_assoc.
  rewrite (Z.land_ones x) by done.
  rewrite (Z.mod_small x) by (unfold SIZE_MAX in Hx; lia).
  rewrite <- Z.ldiff_land, Z.ldiff_ones_r by done.
  by rewrite Z.shiftr_div_pow2, Z.shiftl_mul_pow2.
Qed.

(* the function in terms of division: the start of the block is rounded up
   to a page boundary, what is left of the block is truncated to whole
   pages *)
Lemma zmadvise_dontneed_eval k ptr size_hint real st :
  wf_config -> USE_JEMALLOC = true ->
  0 <= k -> 2 ^ k <= SIZE_MAX ->
  0 < ptr -> 0 <= real -> ptr + real <= SIZE_MAX ->
  zmalloc_size ptr st = Done real st ->
  let page := 2 ^ k in
  let start := (ptr + page - 1) / page * page in
  zmadvise_dontneed true page ptr size_hint st =
    Done (if (negb (size_hint =? 0) && (size_hint / 2 <? page))
             || (real <? page) || (ptr + real - start <? page)
          then None
          else Some (start, (ptr + real - start) / page * page)) st.
Proof.
  intros Hc Hj Hk Hpage Hp Hr Hend Hsz page start.
  pose proof (pow_bits_pos Hc) as Hpow.
  assert (Hb : 0 <= size_t_bits) by (destruct Hc; lia).
  assert (Hpos : 0 < page) by (apply Z.pow_pos_nonneg; lia).
  unfold zmadvise_dontneed. rewrite Hj. simpl.
  destruct (Z.eqb_spec ptr NULL); [unfold NULL in *; lia|].
  fold page.
  destruct (negb (size_hint =? 0) && (size_hint / 2 <? page)); [done|]. simpl.
  unfold bind. rewrite Hsz.
  destruct (Z.ltb_spec real page) as [Hlt|Hge]; [done|]. simpl.
  assert (Hmask : forall x, 0 <= x <= SIZE_MAX ->
            Z.land x (wrap (Z.lnot (page - 1))) = x / page * page).
  { intros x Hx. by apply land_page_mask. }
  rewrite (wrap_small (page - 1)) by lia.
  rewrite (wrap_small (ptr + (page - 1))) by lia.
  rewrite Hmask by lia.
  replace (ptr + (page - 1)) with (ptr + page - 1) by lia. fold page start.
  assert (Hstart : ptr <= start <= ptr + page - 1).
  { unfold start. pose proof (Z.mod_pos_bound (ptr + page - 1) page Hpos).
    pose proof (Z.div_mod (ptr + page - 1) page ltac:(lia)). nia. }
  rewrite (wrap_small (real - (start - ptr))) by lia.
  replace (real - (start - ptr)) with (ptr + real - start) by lia.
  destruct (Z.geb_spec (ptr + real - start) page),
    (Z.ltb_spec (ptr + real - start) page); try lia; [|done].
  unfold ret. do 3 f_equal. apply Hmask. lia.
Qed.

(** X16: on a jemalloc build on Linux, with a page size that is a power of
    two, [zmadvise_dontneed] rounds the start of the block up to a page
    boundary and truncates what is left of the block to whole pages; it
    calls madvise exactly when the size hint is 0 or at least two pages
    and a whole page is left. *)
Theorem zmadvise_dontneed_rounds_to_pages k ptr size_hint real st :
  wf_config -> USE_JEMALLOC = true ->
  0 <= k -> 2 ^ k <= SIZE_MAX ->
  0 < ptr -> 0 <= real -> ptr + real <= SIZE_MAX ->
  zmalloc_size ptr st = Done real st ->
  let page := 2 ^ k in
  let start := (ptr + page - 1) / page * page in
  zmadvise_dontneed true page ptr size_hint st =
    Done (if (negb (size_hint =? 0) && (size_hint / 2 <? page))
             || (real <? page) || (ptr + real - start <? page)
          then None
          else Some (start, (ptr + real - start) / page * page)) st.
Proof. apply zmadvise_dontneed_eval. Qed.

(** X17: the range [zmadvise_dontneed] hands to madvise starts on a page
    boundary, is a whole number of pages long, at least one, and lies
    inside the block. *)
Theorem zmadvise_dontneed_stays_inside_block k ptr size_hint real st addr len st' :
  wf_config -> USE_JEMALLOC = true ->
  0 <= k -> 2 ^ k <= SIZE_MAX ->
  0 < ptr -> 0 <= real -> ptr + real <= SIZE_MAX ->
  zmalloc_size ptr st = Done real st ->
  zmadvise_dontneed true (2 ^ k) ptr size_hint st = Done (Some (addr, len)) st' ->
  addr mod 2 ^ k = 0 /\ len mod 2 ^ k = 0 /\ 2 ^ k <= len /\
  ptr <= addr /\ addr + len <= ptr + real /\ st' = st.
Proof.
  intros Hc Hj Hk Hpage Hp Hr Hend Hsz.
  rewrite (zmadvise_dontneed_eval k ptr size_hint real st) by done.
  set (page := 2 ^ k). set (start := (ptr + page - 1) / page * page).
  assert (Hpos : 0 < page) by (apply Z.pow_pos_nonneg; lia).
  destruct (_ || _ || (ptr + real - start <? page)) eqn:Hcond; [done|].
  intros [= <- <- <-].
  apply orb_false_iff in Hcond as [_ Hleft%Z.ltb_ge].
  assert (Hstart : ptr <= start <= ptr + page - 1).
  { unfold start. pose proof (Z.mod_pos_bound (ptr + page - 1) page Hpos).
    pose proof (Z.div_mod (ptr + page - 1) page ltac:(lia)). nia. }
  pose proof (Z.mod_pos_bound (ptr + real - start) page Hpos).
  pose proof (Z.div_mod (ptr + real - start) page ltac:(lia)).
  assert (1 <= (ptr + real - start) / page).
  { apply Z.div_le_lower_bound; lia. }
  split_and!; try done.
  - unfold start. apply Z.mod_mul. lia.
  - apply Z.mod_mul. lia.
  - nia.
  - lia.
  - nia.
Qed.

End Coverage.

(** * The parser of /proc/self/stat *)

Section Stat.
Implicit Types (s p f head : list Z) (fields : list (list Z)).

Lemma c_string_app_nul s rest :
  Forall (fun c => c <> 0) s -> c_string (s ++ 0 :: rest) = s.
Proof.
  induction 1 as [|c s Hc _ IH]; simpl; [done|].
  destruct (Z.eqb_spec c 0); [done|]. by rewrite IH.
Qed.

Lemma strchr_none s c : Forall (fun x => x <> c) s -> strchr s c = None.
Proof.
  induction 1 as [|x s Hx _ IH]; simpl; [done|].
  by destruct (Z.eqb_spec x c).
Qed.

Lemma strrchr_none s c : Forall (fun x => x <> c) s -> strrchr s c = None.
Proof.
  induction 1 as [|x s Hx _ IH]; simpl; [done|].
  rewrite IH. by destruct (Z.eqb_spec x c).
Qed.

(* strrchr finds the last occurrence, whatever comes before it *)
Lemma strrchr_last head c rest :
  Forall (fun x => x <> c) rest ->
  strrchr (head ++ c :: rest) c = Some (c :: rest).
Proof.
  intros Hr. induction head as [|x head IH]; simpl.
  - rewrite (strrchr_none rest c Hr). by rewrite Z.eqb_refl.
  - by rewrite IH.
Qed.

Lemma strchr_first f c rest :
  Forall (fun x => x <> c) f -> strchr (f ++ c :: rest) c = Some (c :: rest).
Proof.
  induction 1 as [|x f Hx _ IH]; simpl.
  - by rewrite Z.eqb_refl.
  - by destruct (Z.eqb_spec x c).
Qed.

Lemma field_ok_no c f :
  c = 0 \/ c = 32 \/ c = 41 \/ c = 10 -> field_ok f -> Forall (fun x => x <> c) f.
Proof.
  intros Hc [_ Hf]. eapply Forall_impl; [exact Hf|]. simpl. intros x. lia.
Qed.

Lemma join_fields_cons f fields :
  fields <> [] -> join_fields (f :: fields) = f ++ 32 :: join_fields fields.
Proof. by destruct fields. Qed.

Lemma join_fields_no c fields :
  c = 0 \/ c = 41 \/ c = 10 ->
  Forall field_ok fields -> Forall (fun x => x <> c) (join_fields fields).
Proof.
  intros Hc. induction 1 as [|f fields Hf Hfs IH]; [by constructor|].
  destruct fields as [|g fields].
  - simpl. apply (field_ok_no c f); [lia | done].
  - rewrite join_fields_cons by done. apply Forall_app. split.
    + apply (field_ok_no c f); [lia | done].
    + constructor; [lia | done].
Qed.

Lemma skip_fields_join k fields :
  Forall field_ok fields -> (k < length fields)%nat ->
  skip_fields k (join_fields fields) = Some (join_fields (drop k fields)).
Proof.
  revert fields. induction k as [|k IH]; intros fields Hok Hk; [done|].
  destruct fields as [|f fields]; [simpl in Hk; lia|].
  destruct fields as [|g fields]; [simpl in Hk; lia|].
  rewrite join_fields_cons by done. cbn [skip_fields].
  apply Forall_cons in Hok as [Hf Hok].
  rewrite strchr_first by (apply (field_ok_no 32 f); [lia | done]).
  cbn [tail]. rewrite IH; [done | done | simpl in *; lia].
Qed.

Lemma until_space_app f rest :
  Forall (fun x => x <> 32) f -> until_space (f ++ 32 :: rest) = f.
Proof.
  induction 1 as [|x f' Hx _ IH]; simpl; [done|].
  destruct (Z.eqb_spec x 32); [done|]. by rewrite IH.
Qed.

Lemma until_space_all f :
  Forall (fun x => x <> 32) f -> until_space f = f.
Proof.
  induction 1 as [|x f' Hx _ IH]; simpl; [done|].
  destruct (Z.eqb_spec x 32); [done|]. by rewrite IH.
Qed.

Lemma until_space_join f fields :
  field_ok f -> until_space (join_fields (f :: fields)) = f.
Proof.
  intros Hf. assert (Hns : Forall (fun x => x <> 32) f).
  { apply field_ok_no; [lia | done]. }
  destruct fields as [|g fields].
  - by apply until_space_all.
  - rewrite join_fields_cons by done. by apply until_space_app.
Qed.

Lemma skip_spaces_field f rest :
  field_ok f -> skip_spaces (32 :: f ++ rest) = f ++ rest /\ f ++ rest <> [].
Proof.
  intros [Hne Hf]. destruct f as [|c f]; [done|].
  apply Forall_cons in Hf as [Hc _]. simpl.
  destruct (Z.eqb_spec c 32); [lia|]. done.
Qed.

(* the field the function reads, given the line the kernel writes *)
Lemma get_proc_stat_ll_field head fields k f :
  Forall (fun c => c <> 0) head ->
  Forall field_ok fields ->
  fields !! k = Some f ->
  (length (stat_line head fields) <= 4095)%nat ->
  get_proc_stat_ll true (Z.of_nat k + 3) (Some (stat_line head fields))
  = match (strtoll f).2 with
    | [] => (1, Some (strtoll f).1)
    | _ => (0, Some (strtoll f).1)
    end.
Proof.
  intros Hhead Hok Hk Hlen.
  pose proof (lookup_lt_Some _ _ _ Hk) as Hklt.
  unfold get_proc_stat_ll. rewrite take_ge by done.
  set (body := head ++ 41 :: 32 :: join_fields fields).
  assert (Hline : stat_line head fields = body ++ [10]).
  { unfold stat_line, body. by rewrite <- !app_assoc. }
  rewrite Hline. rewrite length_app. simpl length.
  replace (length body + 1 - 1)%nat with (length body + 0)%nat by lia.
  destruct (Nat.eqb_spec (length body + 1) 0); [lia|].
  rewrite lookup_app_r by lia.
  replace (length body + 0 - length body)%nat with 0%nat by lia. simpl.
  rewrite insert_app_r. simpl.
  assert (Hbody : Forall (fun c => c <> 0) body).
  { unfold body. apply Forall_app. split; [done|].
    constructor; [lia|]. constructor; [lia|].
    apply join_fields_no; [lia | done]. }
  rewrite c_string_app_nul by done.
  unfold body.
  rewrite strrchr_last.
  2: { constructor; [lia|]. apply join_fields_no; [lia | done]. }
  cbn [tail].
  destruct fields as [|f0 fields]; [simpl in Hklt; lia|].
  pose proof (Forall_inv Hok) as Hf0.
  assert (Hj : exists rest, join_fields (f0 :: fields) = f0 ++ rest).
  { destruct fields as [|g fields].
    - exists []. simpl. by rewrite app_nil_r.
    - eexists. by rewrite join_fields_cons. }
  destruct Hj as [rest Hj].
  destruct (skip_spaces_field f0 rest Hf0) as [Hskip Hne].
  rewrite <- Hj in Hskip, Hne.
  rewrite Hskip.
  destruct (join_fields (f0 :: fields)) as [|c0 j0] eqn:Ej; [done|].
  rewrite <- Ej.
  replace (Z.of_nat k + 3 - 3) with (Z.of_nat k) by lia.
  destruct (Z.ltb_spec (Z.of_nat k) 0); [lia|].
  rewrite Nat2Z.id, skip_fields_join by done.
  assert (Hdrop : drop k (f0 :: fields) = f :: drop (S k) (f0 :: fields)).
  { by apply drop_S. }
  rewrite Hdrop, until_space_join; [done|].
  eapply Forall_lookup_1; [exact Hok | exact Hk].
Qed.

(** X18: from a line of /proc/self/stat, [get_proc_stat_ll (i)] reads the
    field number [i], counting from 3 for the first field after the last
    closing parenthesis of the line (a command name may itself hold
    parentheses and spaces): it returns 1 and the value when strtoll reads
    the whole field, and 0 otherwise. *)
Theorem get_proc_stat_ll_reads_field head fields k f :
  Forall (fun c => c <> 0) head ->
  Forall field_ok fields ->
  fields !! k = Some f ->
  (length (stat_line head fields) <= 4095)%nat ->
  get_proc_stat_ll true (Z.of_nat k + 3) (Some (stat_line head fields))
  = match (strtoll f).2 with
    | [] => (1, Some (strtoll f).1)
    | _ => (0, Some (strtoll f).1)
    end.
Proof. apply get_proc_stat_ll_field. Qed.
(** ** Numbers in the line *)

Lemma decimal_rev_digits fuel n :
  Forall digit_char (decimal_rev fuel n).
Proof.
  revert n. induction fuel as [|fuel IH]; intros n; simpl; [by constructor|].
  constructor.
  - pose proof (Z.mod_pos_bound n 10). unfold digit_char. lia.
  - case_match; [by constructor | apply IH].
Qed.

Lemma decimal_rev_value fuel n :
  0 <= n < 10 ^ Z.of_nat fuel ->
  foldr (fun c v => v * 10 + (c - 48)) 0 (decimal_rev fuel n) = n.
Proof.
  revert n. induction fuel as [|fuel IH]; intros n Hn.
  { simpl in *. lia. }
  cbn [decimal_rev foldr].
  rewrite Nat2Z.inj_succ, Z.pow_succ_r in Hn by lia.
  pose proof (Z.div_mod n 10 ltac:(lia)) as Hdm.
  pose proof (Z.mod_pos_bound n 10 ltac:(lia)) as Hm.
  destruct (Z.ltb_spec n 10).
  - simpl. rewrite Z.mod_small by lia. lia.
  - rewrite IH.
    + lia.
    + split; [apply Z.div_pos; lia|]. apply Z.div_lt_upper_bound; lia.
Qed.

Lemma strtoll_digits_all s acc :
  Forall digit_char s ->
  strtoll_digits s acc = (fold_left (fun a c => a * 10 + (c - 48)) s acc, []).
Proof.
  intros Hs. revert acc. induction Hs as [|c s Hc _ IH]; intros acc; simpl; [done|].
  unfold isdigit. unfold digit_char in Hc.
  destruct (Z.leb_spec 48 c), (Z.leb_spec c 57); try lia. simpl. apply IH.
Qed.

Lemma decimal_digits n : Forall digit_char (decimal n).
Proof. unfold decimal. apply Forall_rev, decimal_rev_digits. Qed.

Lemma decimal_nonempty n : decimal n <> [].
Proof.
  unfold decimal. simpl. intros H%(f_equal length).
  rewrite length_app in H. simpl in H. lia.
Qed.

Lemma decimal_field_ok n : field_ok (decimal n).
Proof.
  split; [apply decimal_nonempty|].
  eapply Forall_impl; [apply decimal_digits|]. unfold digit_char. intros c. lia.
Qed.

(* strtoll reads back what "%lld" prints *)
Lemma strtoll_decimal n :
  0 <= n <= LLONG_MAX -> strtoll (decimal n) = (n, []).
Proof.
  intros Hn. pose proof (decimal_digits n) as Hd.
  pose proof (decimal_nonempty n) as Hne.
  assert (Hval : fold_left (fun a c => a * 10 + (c - 48)) (decimal n) 0 = n).
  { unfold decimal.
    rewrite <- (fold_left_rev_right (fun c v => v * 10 + (c - 48))).
    rewrite rev_involutive. apply decimal_rev_value.
    unfold LLONG_MAX in Hn. change (10 ^ Z.of_nat 19) with 10000000000000000000. lia. }
  pose proof (strtoll_digits_all (decimal n) 0 Hd) as Hrun.
  destruct (decimal n) as [|c s]; [done|].
  apply Forall_cons in Hd as [Hc _]. unfold digit_char in Hc.
  unfold strtoll, strto. cbn [skip_isspace]. unfold isspace.
  destruct (Z.eqb_spec c 32); [lia|].
  destruct (Z.leb_spec 9 c), (Z.leb_spec c 13); try lia. cbn [orb andb].
  destruct (Z.eqb_spec c 45); [lia|]. destruct (Z.eqb_spec c 43); [lia|].
  cbn [fst snd]. unfold isdigit.
  destruct (Z.leb_spec 48 c), (Z.leb_spec c 57); try lia. cbn [andb].
  rewrite Hrun, Hval. cbn [fst snd]. f_equal. unfold LLONG_MIN, LLONG_MAX in *. lia.
Qed.

(** X19: a number from 0 to LLONG_MAX printed in decimal as field [i] of
    the line of /proc/self/stat is what [get_proc_stat_ll (i)] returns
    through [res], with return value 1. *)
Theorem get_proc_stat_ll_reads_number head fields k n :
  Forall (fun c => c <> 0) head ->
  Forall field_ok fields ->
  fields !! k = Some (decimal n) ->
  0 <= n <= LLONG_MAX ->
  (length (stat_line head fields) <= 4095)%nat ->
  get_proc_stat_ll true (Z.of_nat k + 3) (Some (stat_line head fields))
  = (1, Some n).
Proof.
  intros Hhead Hok Hk Hn Hlen.
  rewrite (get_proc_stat_ll_field head fields k (decimal n)) by done.
  by rewrite strtoll_decimal.
Qed.

Lemma c_string_forall (P : Z -> Prop) buf :
  Forall P buf -> Forall P (c_string buf).
Proof.
  induction 1 as [|c buf Hc _ IH]; simpl; [by constructor|].
  case_match; by constructor.
Qed.

(** X20: [get_proc_stat_ll] returns 0 and leaves [*res] alone for a field
    number below 3, and for a file without a closing parenthesis. *)
Theorem get_proc_stat_ll_rejects have_proc_stat i data :
  i < 3 \/ (forall bytes, data = Some bytes -> Forall (fun c => c <> 41) bytes) ->
  get_proc_stat_ll have_proc_stat i data = (0, None).
Proof.
  intros Hcase. unfold get_proc_stat_ll.
  destruct have_proc_stat; [|done].
  destruct data as [bytes|]; [|done].
  case_match; [done|].
  match goal with |- context [strrchr ?s 41] => set (str := s) end.
  destruct Hcase as [Hi | Hno].
  - destruct (strrchr str 41); [|done].
    case_match; [done|].
    destruct (Z.ltb_spec (i - 3) 0); [done | lia].
  - rewrite strrchr_none; [done|].
    subst str. apply c_string_forall.
    assert (Ht : Forall (fun c => c <> 41) (take 4095 bytes)).
    { by apply Forall_take, Hno. }
    case_match; [|done]. by apply Forall_insert.
Qed.


End Stat.

(** * The parser of /proc/self/smaps *)

Section SmapsProperties.
Context {cfg : Config}.
Implicit Types (s field line name : list Z).











End SmapsProperties.


(** * The further properties on the sample builds *)

Section HeaderRuns.
#[local] Existing Instance cfg_header.
#[local] Existing Instance bump_allocator.

Local Abbreviation st0 := (st0 cfg_header).
Local Abbreviation st1 := (st1 cfg_header).
Local Abbreviation st1_full := (st1_full cfg_header).
Local Abbreviation ptr1 := (ptr1 cfg_header).

Lemma zrealloc_null_is_zmalloc_witness :
  zrealloc NULL 7 st0 = zmalloc 7 st0.
Proof.
  apply (proj1 (zrealloc_null_is_zmalloc 7 st0)). lia.
Defined.

Lemma zcalloc_overflow_guard_witness :
  ztrycalloc (SIZE_MAX / 2) st0 = Done NULL st0 /\
  ztrycalloc_usable (SIZE_MAX / 2) None st0 = Done (NULL, write_out None 0) st0 /\
  zcalloc (SIZE_MAX / 2) st0 =
    (if handler_returns (zmalloc_oom_handler st0) (SIZE_MAX / 2)
     then Done NULL (emit (Call_oom (zmalloc_oom_handler st0) (SIZE_MAX / 2)) st0)
     else Abort (emit (Call_oom (zmalloc_oom_handler st0) (SIZE_MAX / 2)) st0)).
Proof.
  apply (zcalloc_overflow_guard (SIZE_MAX / 2) None st0). lia.
Defined.

Lemma zcalloc_num_is_zcalloc_witness :
  zcalloc_num 3 4 st0 = zcalloc (3 * 4) st0.
Proof.
  apply (zcalloc_num_is_zcalloc 3 4 st0); [lia | lia | by vm_compute].
Defined.

Lemma zrealloc_zero_never_panics_witness :
  zrealloc ptr1 0 st1 = (zfree ptr1 ;;; ret NULL)%zm st1.
Proof.
  assert (Hp : ptr1 <> NULL) by (by vm_compute).
  exact (proj1 (zrealloc_zero_never_panics ptr1 None st1 Hp)).
Defined.

Lemma zrealloc_overflow_frees_then_panics_witness :
  zrealloc ptr1 (SIZE_MAX / 2) st1
  = (zfree ptr1 ;;; call_oom_handler (SIZE_MAX / 2) ;;; ret NULL)%zm st1.
Proof.
  apply (zrealloc_overflow_frees_then_panics ptr1 (SIZE_MAX / 2) st1).
  - exact cfg_header_wf.
  - by vm_compute.
  - lia.
Defined.

Lemma zmalloc_usable_reports_usable_size_witness :
  exists ptr u st',
    ztrymalloc_usable 100 (Some 0) st0 = Done (ptr, write_out (Some 0) u) st' /\
    zmalloc_usable 100 (Some 0) st0 = Done (ptr, write_out (Some 0) u) st' /\
    ptr <> NULL /\
    zmalloc_usable_size ptr st' = Done u st' /\
    100 <= u.
Proof.
  apply (zmalloc_usable_reports_usable_size 100 (Some 0) st0).
  - exact bump_laws.
  - exact cfg_header_wf.
  - exact (st0_wf cfg_header cfg_header_wf).
  - by vm_compute.
  - by vm_compute.
Defined.

Lemma ztrymalloc_accounts_usable_and_header_witness :
  exists ptr u st' um,
    ztrymalloc 100 st0 = Done ptr st' /\
    zmalloc_usable_size ptr st' = Done u st' /\
    zmalloc_used_memory st0 = Done um st0 /\
    zmalloc_used_memory st'
      = Done (wrap (um + (if HAVE_MALLOC_SIZE then u else u + PREFIX_SIZE))) st'.
Proof.
  apply (ztrymalloc_accounts_usable_and_header 100 st0).
  - exact bump_laws.
  - exact cfg_header_wf.
  - exact (st0_wf cfg_header cfg_header_wf).
  - by vm_compute.
  - by vm_compute.
Defined.

(* the arena of [st1_full] has no room: the allocation fails *)
Lemma ztrymalloc_null_keeps_accounting_witness :
  let st' := final_state (ztrymalloc 64 st1_full) st1_full in
  same_accounting st1_full st' /\ mem st' = mem st1_full /\
  zmalloc_oom_handler st' = zmalloc_oom_handler st1_full.
Proof.
  apply (ztrymalloc_null_keeps_accounting 64 st1_full).
  - exact bump_laws.
  - exact cfg_header_wf.
  - by vm_compute.
Defined.

Lemma thread_index_assigned_once_witness :
  exists sta stf,
    update_zmalloc_stat_alloc 10 st0 = Done tt sta /\
    update_zmalloc_stat_free 10 st0 = Done tt stf /\
    thread_index sta = thread_index stf /\
    total_active_threads sta = total_active_threads stf /\
    (thread_index st0 = -1 ->
     thread_index sta = total_active_threads st0 /\
     total_active_threads sta = total_active_threads st0 + 1) /\
    (thread_index st0 <> -1 ->
     thread_index sta = thread_index st0 /\
     total_active_threads sta = total_active_threads st0).
Proof.
  apply (thread_index_assigned_once 10 st0).
  - exact cfg_header_wf.
  - exact (st0_wf cfg_header cfg_header_wf).
Defined.

Lemma update_writes_own_counter_only_witness :
  exists st',
    update_zmalloc_stat_alloc 10 st1 = Done tt st' /\
    (forall j, Z.of_nat j <> thread_index st' ->
       used_memory_thread st' !! j = used_memory_thread st1 !! j) /\
    (thread_index st' < MAX_THREADS_NUM ->
     used_memory_for_additional_threads st' = used_memory_for_additional_threads st1 /\
     exists v, used_memory_thread st1 !! Z.to_nat (thread_index st') = Some v /\
               used_memory_thread st' !! Z.to_nat (thread_index st')
                 = Some (wrap (v + 10))) /\
    (MAX_THREADS_NUM <= thread_index st' ->
     used_memory_thread st' = used_memory_thread st1 /\
     used_memory_for_additional_threads st'
       = wrap (used_memory_for_additional_threads st1 + 10)).
Proof.
  apply (update_writes_own_counter_only 10 st1).
  - exact cfg_header_wf.
  - exact st1_header_wf.
Defined.

Lemma run_call_keeps_invariant_witness :
  wf_state (final_state (run_call (call_zmalloc 16) st0) st0).
Proof.
  apply (run_call_keeps_invariant (call_zmalloc 16) st0).
  - exact cfg_header_wf.
  - exact (st0_wf cfg_header cfg_header_wf).
  - by vm_compute.
Defined.

Lemma reachable_states_are_accounted_witness :
  let st := final_state (run_calls calls (initial_state heap0)) st0 in
  wf_state st /\
  zmalloc_used_memory st = Done (used_memory_value st) st /\
  (exists st', update_zmalloc_stat_alloc 8 st = Done tt st') /\
  (exists st', update_zmalloc_stat_free 8 st = Done tt st').
Proof.
  apply (reachable_states_are_accounted heap0 calls).
  - exact cfg_header_wf.
  - by vm_compute.
Defined.

Lemma zfree_after_ztryrealloc_witness :
  exists newptr sta stb um,
    ztryrealloc ptr1 32 st1 = Done newptr sta /\ newptr <> NULL /\
    zfree newptr sta = Done tt stb /\
    zmalloc_used_memory st1 = Done um st1 /\
    zmalloc_used_memory stb = Done (wrap (um - accounted_size 16)) stb.
Proof.
  apply (zfree_after_ztryrealloc ptr1 32 16 st1).
  - exact cfg_header_wf.
  - exact st1_header_wf.
  - by vm_compute.
  - by vm_compute.
  - by vm_compute.
  - by vm_compute.
Defined.

(* the block of [st1] has usable size 16; the caller says 5 *)
Lemma zfree_with_size_trusts_caller_witness :
  exists st' um,
    zfree_with_size ptr1 5 st1 = Done tt st' /\
    trace st' = trace st1 ++ [Stat_free (accounted_size 5);
                              release_event (ptr1 - PREFIX_SIZE) (accounted_size 5)] /\
    mem st' = delete (ptr1 - PREFIX_SIZE) (mem st1) /\
    zmalloc_used_memory st1 = Done um st1 /\
    zmalloc_used_memory st' = Done (wrap (um - accounted_size 5)) st'.
Proof.
  apply (zfree_with_size_trusts_caller ptr1 5 st1).
  - exact cfg_header_wf.
  - exact st1_header_wf.
  - by vm_compute.
  - by vm_compute.
Defined.
End HeaderRuns.

Section NativeRuns.
#[local] Existing Instance cfg_native.
#[local] Existing Instance bump_allocator.

(* the block of 20000 bytes at 4120, with pages of 4096 bytes *)
Lemma zmadvise_dontneed_rounds_to_pages_witness :
  zmadvise_dontneed true (2 ^ 12) 4120 0 st2_native
  = Done (Some (8192, 12288)) st2_native.
Proof.
  refine (zmadvise_dontneed_rounds_to_pages 12 4120 0 20000 st2_native
            cfg_native_wf _ _ _ _ _ _ _); by vm_compute.
Defined.

Lemma zmadvise_dontneed_stays_inside_block_witness :
  8192 mod 2 ^ 12 = 0 /\ 12288 mod 2 ^ 12 = 0 /\ 2 ^ 12 <= 12288 /\
  4120 <= 8192 /\ 8192 + 12288 <= 4120 + 20000 /\ st2_native = st2_native.
Proof.
  refine (zmadvise_dontneed_stays_inside_block 12 4120 0 20000 st2_native
            8192 12288 st2_native cfg_native_wf _ _ _ _ _ _ _ _); by vm_compute.
Defined.
End NativeRuns.

Section StatRuns.

Lemma stat_head_ok : Forall (fun c => c <> 0) stat_head.
Proof. unfold stat_head. repeat constructor; lia. Qed.

Lemma stat_fields_ok : Forall field_ok stat_fields.
Proof.
  unfold stat_fields. constructor.
  - split; [done|]. repeat constructor; lia.
  - apply Forall_app. split.
    + apply Forall_fmap, Forall_true. intros n. apply decimal_field_ok.
    + constructor; [apply decimal_field_ok|].
      constructor; [apply decimal_field_ok|]. constructor.
Qed.

(* field 3 is the state letter: strtoll reads no number in it *)
Lemma get_proc_stat_ll_reads_field_witness :
  get_proc_stat_ll true 3 (Some (stat_line stat_head stat_fields)) = (0, Some 0).
Proof.
  refine (get_proc_stat_ll_reads_field stat_head stat_fields 0 [83]
            stat_head_ok stat_fields_ok _ _).
  - reflexivity.
  - vm_compute. lia.
Defined.

Lemma get_proc_stat_ll_reads_number_witness :
  get_proc_stat_ll true 24 (Some (stat_line stat_head stat_fields)) = (1, Some 1234).
Proof.
  refine (get_proc_stat_ll_reads_number stat_head stat_fields 21 1234
            stat_head_ok stat_fields_ok _ _ _).
  - reflexivity.
  - by vm_compute.
  - vm_compute. lia.
Defined.

Lemma get_proc_stat_ll_rejects_witness :
  get_proc_stat_ll true 2 (Some (stat_line stat_head stat_fields)) = (0, None).
Proof.
  apply (get_proc_stat_ll_rejects true 2). left. lia.
Defined.

End StatRuns.

Section SmapsRuns.



Example smaps_locked_total :
  @zmalloc_get_smap_bytes_by_field cfg_header smaps_locked
    (Some ((fun e => smaps_entry e.1 e.2) <$> smaps_entries)) = 7168.
Proof. by vm_compute. Qed.
End SmapsRuns.
